(** * The quorum-acceptance loop of the checkpoint collector

    A shallow embedding of [cmd/mirroring] (the collector's [main] and its
    helpers [readLatestCheckpoints], [deleteOldCheckpoints], [initMonitors])
    together with the parts of the Go standard library it calls, followed by
    the properties of the loop.

    Conventions.  Go's [int] and [int64] are [Z]; every integer the program
    computes with is either the result of a range-checked parse or a length,
    so no wrap-around arises and none is written.  Go strings are byte
    strings: [string] with one [ascii] per byte.  A Go [(value, error)]
    return is a [result]; a [log.Fatalf] or a run-time panic ends the
    process and is an [outcome]. *)

From Stdlib Require Import ZArith Lia.
From Stdlib Require Import Ascii DecimalString DecimalZ.
From stdpp Require Import gmap strings list sorting.

Open Scope Z_scope.

(** ** Errors, results and process outcomes *)

Inductive error : Type :=
| ENOENT                      (* open: no such file *)
| EACCES                      (* open: permission denied *)
| ErrTooLong                  (* bufio.Scanner: token too long *)
| ErrSyntax (num : string)    (* strconv: invalid syntax *)
| ErrRange (num : string)     (* strconv: value out of range *)
| ErrJSON.                    (* encoding/json: any decoding error *)

Inductive result (A : Type) : Type :=
| Ok (a : A)
| Err (e : error).
Arguments Ok {A} a.
Arguments Err {A} e.


(** The messages of the [log.Fatalf] calls of [main]. *)
Inductive fatal : Type :=
| FatalGlob (e : error)                       (* "Finding files with .txt extension: %v" *)
| FatalReading (monitor : string) (e : error) (* "Reading checkpoints from %q: %v" *)
| FatalTreeSize (e : error)                   (* "Converting tree size to int: %v" *)
| FatalOpenAccepted (e : error)               (* "Opening AcceptedChptFile: %v" *)
| FatalDeleteOld (e : error).                 (* "failed to delete old checkpoints: %v" *)

(** Run-time panics: the only ones the program can raise are slice index
    expressions out of range. *)
Inductive panic : Type :=
| IndexOutOfRange (index len : nat).

Inductive outcome (A : Type) : Type :=
| Normal (a : A)
| Fatal (f : fatal)     (* logged, then os.Exit(1) *)
| Panic (p : panic).    (* unrecovered panic: stack trace, exit status 2 *)
Arguments Normal {A} a.
Arguments Fatal {A} f.
Arguments Panic {A} p.

Definition obind {A B} (m : outcome A) (k : A -> outcome B) : outcome B :=
  match m with
  | Normal a => k a
  | Fatal f => Fatal f
  | Panic p => Panic p
  end.

#[global] Instance outcome_ret : MRet outcome := @Normal.
#[global] Instance outcome_bind : MBind outcome :=
  fun A B k m => obind m k.

Definition is_Normal {A} (o : outcome A) : Prop :=
  match o with Normal _ => True | _ => False end.

(** [for _, x := range xs { body }] where the body may end the process. *)
Fixpoint forRange {S A} (body : S -> A -> outcome S) (st : S) (xs : list A)
  : outcome S :=
  match xs with
  | [] => Normal st
  | x :: xs' => st' ← body st x; forRange body st' xs'
  end.

(** [xs[i]] on a slice: a panic when [i] is out of range. *)
Definition index {A} (xs : list A) (i : nat) : outcome A :=
  match xs !! i with
  | Some x => Normal x
  | None => Panic (IndexOutOfRange i (length xs))
  end.

(** ** package strings *)

Definition string_drop (n : nat) (s : string) : string :=
  String.substring n (String.length s - n) s.

(** [strings.Split(s, sep)] for a non-empty [sep] (the program only splits
    on the constants backslash-n and colon): cut at each occurrence found by
    [strings.Index], left to right.  The fuel bounds the number of cuts. *)
Fixpoint genSplit (fuel : nat) (s sep : string) : list string :=
  match fuel with
  | O => [s]
  | S fuel' =>
      match String.index 0 sep s with
      | None => [s]
      | Some m =>
          String.substring 0 m s
            :: genSplit fuel' (string_drop (m + String.length sep) s) sep
      end
  end.

Definition strings_Split (s sep : string) : list string :=
  genSplit (String.length s) s sep.

Definition byte_code (a : Ascii.ascii) : Z := Z.of_N (Ascii.N_of_ascii a).

Fixpoint codes (s : string) : list Z :=
  match s with
  | EmptyString => []
  | String a s' => byte_code a :: codes s'
  end.

(** The UTF-8 encodings of the runes for which [unicode.IsSpace] holds:
    tab, LF, VT, FF, CR, space, U+0085, U+00A0, U+1680, U+2000..U+200A,
    U+2028, U+2029, U+202F, U+205F and U+3000. *)
Definition isSpaceRune (bs : list Z) : bool :=
  match bs with
  | [c] => (9 <=? c) && (c <=? 13) || (c =? 32)
  | [194; c] => (c =? 133) || (c =? 160)
  | [225; 154; 128] => true
  | [226; 128; c] =>
      (128 <=? c) && (c <=? 138) || (c =? 168) || (c =? 169) || (c =? 175)
  | [226; 129; 159] => true
  | [227; 128; 128] => true
  | _ => false
  end.

(** Width in bytes of the white-space rune at the front of [bs] ([rev]
    false) or of the reversed white-space rune at the front of the reversed
    string ([rev] true); [0] when there is none. *)
Definition spaceWidth (rev : bool) (bs : list Z) : nat :=
  let rune w := if rev then reverse (take w bs) else take w bs in
  if isSpaceRune (rune 1%nat) then 1
  else if isSpaceRune (rune 2%nat) then 2
  else if isSpaceRune (rune 3%nat) then 3
  else 0.

Fixpoint trimFront (rev : bool) (fuel : nat) (s : string) : string :=
  match fuel with
  | O => s
  | S fuel' =>
      match spaceWidth rev (codes s) with
      | O => s
      | w => trimFront rev fuel' (string_drop w s)
      end
  end.

(** [strings.TrimSpace]: leading, then trailing white space removed. *)
Definition strings_TrimSpace (s : string) : string :=
  let l := trimFront false (String.length s) s in
  String.rev (trimFront true (String.length l) (String.rev l)).

(** ** package strconv *)

Definition digit (a : Ascii.ascii) : option Z :=
  let c := byte_code a in
  if (48 <=? c) && (c <=? 57) then Some (c - 48) else None.

Inductive numError : Type := NumSyntax | NumRange.

(** The digit loop of [strconv.ParseUint(s, 10, 64)]. *)
Fixpoint parseDigits (s : string) (n : Z) : Z + numError :=
  match s with
  | EmptyString => inl n
  | String a s' =>
      match digit a with
      | None => inr NumSyntax
      | Some d =>
          if 2 ^ 64 - 1 <? n * 10 + d then inr NumRange
          else parseDigits s' (n * 10 + d)
      end
  end.

Definition ParseUint (s : string) : Z + numError :=
  match s with
  | EmptyString => inr NumSyntax
  | _ => parseDigits s 0
  end.

(** [strconv.ParseInt(s, 10, 64)]. *)
Definition strconv_ParseInt (s : string) : result Z :=
  match s with
  | EmptyString => Err (ErrSyntax s)
  | String a s' =>
      let neg := Ascii.eqb a "-"%char in
      let body := if Ascii.eqb a "+"%char || neg then s' else s in
      match ParseUint body with
      | inr NumSyntax => Err (ErrSyntax s)
      | inr NumRange => Err (ErrRange s)
      | inl un =>
          if negb neg && (2 ^ 63 <=? un) then Err (ErrRange s)
          else if neg && (2 ^ 63 <? un) then Err (ErrRange s)
          else Ok (if neg then - un else un)
      end
  end.

(** [strconv.Atoi] on a 64-bit platform: its fast path for short inputs
    computes what [ParseInt(s, 10, 0)] computes. *)
Definition strconv_Atoi (s : string) : result Z := strconv_ParseInt s.

(** [strconv.Itoa]: decimal digits, a leading minus sign when negative. *)
Definition strconv_Itoa (n : Z) : string :=
  NilZero.string_of_int (Z.to_int n).

(** ** package math, and the float64 values the program forms

    Finite binary64 values are written mantissa times two to the exponent.
    [round53] is the rounding of an exact dyadic value to 53 significant
    bits, nearest with ties to even; exponent overflow and subnormals are
    out of reach (the values here lie between 0.75 and 2^63). *)

Record float64 : Type := mkFloat { mant : Z; expo : Z }.

Definition roundShift (m k : Z) : Z :=
  let q := m / 2 ^ k in
  let r := m mod 2 ^ k in
  let half := 2 ^ (k - 1) in
  if (half <? r) || ((r =? half) && Z.odd q) then q + 1 else q.

Definition round53 (m e : Z) : float64 :=
  if Z.abs m <? 2 ^ 53 then mkFloat m e
  else
    let k := Z.log2 (Z.abs m) - 52 in
    mkFloat (Z.sgn m * roundShift (Z.abs m) k) (e + k).

(** [float64(n)] for an [int] n. *)
Definition float64_of_int (n : Z) : float64 := round53 n 0.

Definition float64_mul (x y : float64) : float64 :=
  round53 (mant x * mant y) (expo x + expo y).

(** The constant [0.75], exactly 3 * 2^-2. *)
Definition const_0_75 : float64 := mkFloat 3 (-2).

(** [math.Round]: nearest integer, halves away from zero. *)
Definition math_Round (x : float64) : float64 :=
  if 0 <=? expo x then x
  else
    let k := - expo x in
    let q := Z.abs (mant x) / 2 ^ k in
    let r := Z.abs (mant x) mod 2 ^ k in
    mkFloat (Z.sgn (mant x) * (if 2 ^ (k - 1) <=? r then q + 1 else q)) 0.

(** [int(x)]: the fractional part is discarded. *)
Definition int_of_float64 (x : float64) : Z :=
  if 0 <=? expo x then mant x * 2 ^ expo x
  else Z.quot (mant x) (2 ^ (- expo x)).

(** ** The working directory

    A file has its bytes and the two permissions that decide whether this
    process can open it.  The directory maps entry names to files.  Reads of
    an opened file deliver its bytes and then end-of-file; device faults are
    not modelled, and neither are writers running during a cycle. *)

Record file : Type := mkFile { data : string; readable : bool; writable : bool }.

Abbreviation filesystem := (gmap string file).

(** [os.Open(name)], then reading the handle to its end. *)
Definition os_Open (fs : filesystem) (name : string) : result string :=
  match fs !! name with
  | None => Err ENOENT
  | Some f => if readable f then Ok (data f) else Err EACCES
  end.

(** [os.OpenFile(name, os.O_APPEND|os.O_WRONLY|os.O_CREATE, 0644)]. *)
Definition os_OpenFile_append (fs : filesystem) (name : string)
  : result filesystem :=
  match fs !! name with
  | None => Ok (<[name := mkFile "" true true]> fs)
  | Some f => if writable f then Ok fs else Err EACCES
  end.

(** [os.OpenFile(name, os.O_RDWR|os.O_TRUNC, 0666)]. *)
Definition os_OpenFile_trunc (fs : filesystem) (name : string)
  : result filesystem :=
  match fs !! name with
  | None => Err ENOENT
  | Some f =>
      if readable f && writable f
      then Ok (<[name := mkFile "" (readable f) (writable f)]> fs)
      else Err EACCES
  end.

(** A write through a handle whose offset is the end of the file (opened
    with [O_APPEND], or written sequentially after [O_TRUNC]). *)
Definition file_write (fs : filesystem) (name : string) (s : string)
  : filesystem :=
  alter (fun f => mkFile (data f +:+ s) (readable f) (writable f)) name fs.

(** ** package bufio: a Scanner with the default split function ScanLines *)

Definition LF : Ascii.ascii := "010"%char.
Definition CR : Ascii.ascii := "013"%char.

(** The pieces between line feeds: every piece ended by a line feed, and
    the non-empty piece after the last one. *)
Fixpoint rawLines (s : string) : list string :=
  match s with
  | EmptyString => []
  | String a s' =>
      if Ascii.eqb a LF then EmptyString :: rawLines s'
      else
        match rawLines s' with
        | [] => [String a EmptyString]
        | l :: ls => String a l :: ls
        end
  end.

(** [dropCR] of bufio: one trailing carriage return is removed. *)
Fixpoint dropCR (s : string) : string :=
  match s with
  | EmptyString => EmptyString
  | String a EmptyString => if Ascii.eqb a CR then EmptyString else s
  | String a s' => String a (dropCR s')
  end.

(** [bufio.MaxScanTokenSize]: the buffer of a Scanner grows to 64 KiB. *)
Definition MaxScanTokenSize : Z := 65536.

(** A piece that fills the whole buffer before its line feed is seen makes
    [Scan] stop with [ErrTooLong]. *)
Definition tooLong (raw : string) : bool :=
  MaxScanTokenSize <=? Z.of_nat (String.length raw).

(** [scanner := bufio.NewScanner(file)]: what is left to be scanned. *)
Definition bufio_NewScanner (contents : string) : list string :=
  rawLines contents.

(** [for scanner.Scan() { st = body(st, scanner.Text()) }] followed by
    [scanner.Err()]. *)
Fixpoint forScan {S} (body : S -> string -> S) (st : S) (scanner : list string)
  : S * option error :=
  match scanner with
  | [] => (st, None)
  | raw :: rest =>
      if tooLong raw then (st, Some ErrTooLong)
      else forScan body (body st (dropCR raw)) rest
  end.

(** ** package path/filepath *)

Definition hasSeparator (s : string) : bool :=
  bool_decide (is_Some (String.index 0 "/" s)).

(** [filepath.Match("logInfo*.txt", name)]: the literal prefix, a star that
    matches any run of non-separator bytes, the literal suffix. *)
Definition matchLogInfo (name : string) : bool :=
  String.prefix "logInfo" name
  && (let rest := string_drop 7 name in
      let n := String.length rest in
      (4 <=? n)%nat
      && String.eqb (string_drop (n - 4) rest) ".txt"
      && negb (hasSeparator (String.substring 0 (n - 4) rest))).

(** [filepath.Glob("./logInfo*.txt")]: the entries of the working directory
    that match, in the order of [sort.Strings].  The only error of Glob is
    a malformed pattern, which this constant pattern is not. *)
Definition filepath_Glob (fs : filesystem) : result (list string) :=
  Ok (merge_sort String.le (filter (fun n => matchLogInfo n = true)
                                   (map_to_list fs).*1)).

(** ** package flag *)

Definition Minute : Z := 60 * 1000000000.   (* time.Minute, in nanoseconds *)

(** The command-line flag set: the flags defined so far with the current
    value of each flag's variable, and the arguments of the invocation,
    which only [flag.Parse] reads. *)
Record FlagSet : Type := mkFlagSet {
  formal : gmap string Z;
  osArgs : list string
}.

Definition CommandLine (args : list string) : FlagSet := mkFlagSet ∅ args.

(** [flag.Duration(name, value, usage)]: defines the flag and returns the
    address of the variable that stores its value, which holds [value]
    until [flag.Parse] assigns to it.  The address is the flag's name. *)
Definition flag_Duration (name : string) (value : Z) (flags : FlagSet)
  : string * FlagSet :=
  (name, mkFlagSet (<[name := value]> (formal flags)) (osArgs flags)).

Definition deref (p : string) (flags : FlagSet) : Z :=
  default 0 (formal flags !! p).

(** * The program *)

(** Default path for the client's log file and the monitor list. *)
Definition AcceptedChptFile : string := "accepted_chpt.txt".
Definition MonitorList : string := "monitor_list.json".

(** The monitor_list JSON data. *)
Record monitorEntry : Type := mkEntry { Description : string; Logfile : string }.
Record monitorList : Type := mkMonitorList { Monitors : list monitorEntry }.

(** [readLatestCheckpoints] reads the latest two checkpoints from the given
    file. *)
Definition readLatestCheckpoints (fs : filesystem) (filename : string)
  : result (list string) :=
  match os_Open fs filename with
  | Err e => Err e
  | Ok contents =>
      let scanner := bufio_NewScanner contents in
      let '(checkpoints, err) :=
        forScan
          (fun checkpoints text =>
             let checkpoints := checkpoints ++ [text] in
             if (2 <? length checkpoints)%nat
             then drop (length checkpoints - 2) checkpoints
             else checkpoints)
          [] scanner in
      match err with
      | Some e => Err e
      | None => Ok checkpoints
      end
  end.

(** [deleteOldCheckpoints] keeps the latest 20 lines of the file. *)
Definition deleteOldCheckpoints (fs : filesystem) (filename : string)
  : result filesystem :=
  match os_Open fs filename with
  | Err e => Err e
  | Ok contents =>
      let scanner := bufio_NewScanner contents in
      let '(lines, err) := forScan (fun lines text => lines ++ [text]) [] scanner in
      match err with
      | Some e => Err e
      | None =>
          if (length lines <=? 20)%nat then Ok fs
          else
            match os_OpenFile_trunc fs filename with
            | Err e => Err e
            | Ok fs1 =>
                let first := (length lines - 20)%nat in
                Ok (foldl
                      (fun fs' i =>
                         file_write fs' filename
                           (default EmptyString (lines !! i) +:+ String LF EmptyString))
                      fs1 (seq first (length lines - first)))
            end
      end
  end.

Section InitMonitors.

(** [json.Unmarshal(contents, &list)] into a [monitorList]: the decoder of
    encoding/json is taken as given. *)
Variable json_Unmarshal : string -> result monitorList.

Definition initMonitors (fs : filesystem) (logInfoFilePath : string)
  : result (list string) :=
  (* Read the contents of the JSON file. *)
  match os_Open fs logInfoFilePath with
  | Err e => Err e
  | Ok contents =>
      (* Unmarshal the JSON data into a monitorList struct. *)
      match json_Unmarshal contents with
      | Err e => Err e
      | Ok list =>
          (* Populate the monitors slice with the logfile values. *)
          Ok (foldl (fun monitors im => <[im.1 := Logfile im.2]> monitors)
                    (replicate (length (Monitors list)) EmptyString)
                    (imap pair (Monitors list)))
      end
  end.

End InitMonitors.

(** ** One iteration of the loop of [main] *)

(** [i := int(math.Round(0.75 * float64(len(monitors))))]. *)
Definition quorumThreshold (len : Z) : Z :=
  int_of_float64 (math_Round (float64_mul const_0_75 (float64_of_int len))).

(** The separator of the fields of a checkpoint line: the two bytes
    backslash and n (the Go literal with a doubled backslash). *)
Definition fieldSep : string := "\n".

(** [counts[key]] on a [map[string]int]: zero for an absent key. *)
Definition countOf (counts : gmap string Z) (key : string) : Z :=
  default 0 (counts !! key).

(** Body of the tally loop: extract the tree size, count it. *)
Definition tallyBody (counts : gmap string Z) (chpt : string)
  : outcome (gmap string Z) :=
  let fields := strings_Split chpt fieldSep in
  f1 ← index fields 1;
  match strconv_Atoi f1 with
  | Err e => Fatal (FatalTreeSize e)
  | Ok treeSize =>
      let key := strconv_Itoa treeSize in
      Normal (<[key := countOf counts key + 1]> counts)
  end.

(** [log.Printf("Parsing timestamp: %v", err)]. *)
Inductive logMessage : Type :=
| ParsingTimestamp (e : error).

(** The variables of the selection loop, and what it has logged. *)
Record selection : Type := mkSelection {
  maxTreeSize : Z;
  largestTimestamp : Z;
  latest_chpt : string;
  logged : list logMessage
}.

Definition initialSelection : selection := mkSelection 0 0 EmptyString [].

(** Body of the selection loop. *)
Definition selectBody (counts : gmap string Z) (i : Z)
    (st : selection) (chpt : string) : outcome selection :=
  let fields := strings_Split chpt fieldSep in
  f1 ← index fields 1;
  match strconv_Atoi f1 with
  | Err e => Fatal (FatalTreeSize e)
  | Ok treeSize =>
      if (i <=? countOf counts (strconv_Itoa treeSize))
         && (maxTreeSize st <=? treeSize)
      then
        let st1 := mkSelection treeSize (largestTimestamp st)
                               (latest_chpt st) (logged st) in
        f3 ← index fields 3;
        t ← index (strings_Split f3 ":") 1;
        match strconv_ParseInt (strings_TrimSpace t) with
        | Err e =>
            (* logged; continue: skip this checkpoint *)
            Normal (mkSelection (maxTreeSize st1) (largestTimestamp st1)
                                (latest_chpt st1)
                                (logged st1 ++ [ParsingTimestamp e]))
        | Ok timestamp =>
            if (treeSize =? maxTreeSize st1)
               && (largestTimestamp st1 <? timestamp)
            then Normal (mkSelection (maxTreeSize st1) timestamp chpt (logged st1))
            else Normal st1
        end
      else Normal st
  end.

(** The two passes over [checkpoints [][]string]. *)
Definition tally (checkpoints : list (list string)) : outcome (gmap string Z) :=
  forRange (fun counts chpts => forRange tallyBody counts chpts) ∅ checkpoints.

Definition select (counts : gmap string Z) (i : Z)
    (checkpoints : list (list string)) : outcome selection :=
  forRange (fun st chpts => forRange (selectBody counts i) st chpts)
           initialSelection checkpoints.

(** Reading every monitor's history, in the order of the glob. *)
Definition readAll (fs : filesystem) (monitors : list string)
  : outcome (list (list string)) :=
  forRange
    (fun checkpoints monitor =>
       match readLatestCheckpoints fs monitor with
       | Err e => Fatal (FatalReading monitor e)
       | Ok chpts => Normal (checkpoints ++ [chpts])
       end)
    [] monitors.

(** The body of the [for] loop of [main] up to the sleep: the directory
    after the cycle and the messages logged, unless the process ended. *)
Definition cycle (fs : filesystem) : outcome (filesystem * list logMessage) :=
  match filepath_Glob fs with
  | Err e => Fatal (FatalGlob e)
  | Ok monitors =>
      let i := quorumThreshold (Z.of_nat (length monitors)) in
      checkpoints ← readAll fs monitors;
      (* Count the checkpoints that agree on each tree size. *)
      counts ← tally checkpoints;
      (* Open the accepted-checkpoint file for appending. *)
      match os_OpenFile_append fs AcceptedChptFile with
      | Err e => Fatal (FatalOpenAccepted e)
      | Ok fs1 =>
          sel ← select counts i checkpoints;
          (* fmt.Fprintln(file, latest_chpt) *)
          let fs2 := file_write fs1 AcceptedChptFile
                                (latest_chpt sel +:+ String LF EmptyString) in
          match deleteOldCheckpoints fs2 AcceptedChptFile with
          | Err e => Fatal (FatalDeleteOld e)
          | Ok fs3 => Normal (fs3, logged sel)
          end
      end
  end.

(** The quorum evaluator alone: what a cycle started in [fs] selects, the
    accepted log left aside. *)
Definition evaluate (fs : filesystem) : outcome selection :=
  match filepath_Glob fs with
  | Err e => Fatal (FatalGlob e)
  | Ok monitors =>
      checkpoints ← readAll fs monitors;
      counts ← tally checkpoints;
      select counts (quorumThreshold (Z.of_nat (length monitors))) checkpoints
  end.

(** ** [main]

    The loop never ends by itself; it is observed for as many cycles as
    [env] is long, [env] giving what the producers do to the directory
    during each sleep. *)

Inductive event : Type :=
| EvLog (m : logMessage)
| EvSleep (d : Z)            (* time.Sleep(d), d in nanoseconds *)
| EvFatal (f : fatal)
| EvPanic (p : panic).

Fixpoint mainLoop (interval : Z) (env : list (filesystem -> filesystem))
    (fs : filesystem) : list event :=
  match env with
  | [] => []
  | producers :: env' =>
      match cycle fs with
      | Normal (fs', msgs) =>
          map EvLog msgs ++ EvSleep interval
              :: mainLoop interval env' (producers fs')
      | Fatal f => [EvFatal f]
      | Panic p => [EvPanic p]
      end
  end.

Definition main (args : list string) (env : list (filesystem -> filesystem))
    (fs : filesystem) : list event :=
  let '(interval, flags) :=
    flag_Duration "interval" (1 * Minute) (CommandLine args) in
  mainLoop (deref interval flags) env fs.

(** * Properties *)

(** ** The selection scan and its equality guard *)

(** The body of the selection loop as the design notes describe it with the
    "same size as the running max" guard deleted: only the timestamp is
    compared. *)
Definition selectBody_noGuard (counts : gmap string Z) (i : Z)
    (st : selection) (chpt : string) : outcome selection :=
  let fields := strings_Split chpt fieldSep in
  f1 ← index fields 1;
  match strconv_Atoi f1 with
  | Err e => Fatal (FatalTreeSize e)
  | Ok treeSize =>
      if (i <=? countOf counts (strconv_Itoa treeSize))
         && (maxTreeSize st <=? treeSize)
      then
        let st1 := mkSelection treeSize (largestTimestamp st)
                               (latest_chpt st) (logged st) in
        f3 ← index fields 3;
        t ← index (strings_Split f3 ":") 1;
        match strconv_ParseInt (strings_TrimSpace t) with
        | Err e =>
            Normal (mkSelection (maxTreeSize st1) (largestTimestamp st1)
                                (latest_chpt st1)
                                (logged st1 ++ [ParsingTimestamp e]))
        | Ok timestamp =>
            if largestTimestamp st1 <? timestamp
            then Normal (mkSelection (maxTreeSize st1) timestamp chpt (logged st1))
            else Normal st1
        end
      else Normal st
  end.

Definition select_noGuard (counts : gmap string Z) (i : Z)
    (checkpoints : list (list string)) : outcome selection :=
  forRange (fun st chpts => forRange (selectBody_noGuard counts i) st chpts)
           initialSelection checkpoints.

(** Loops whose bodies agree everywhere run alike. *)
Lemma forRange_ext {S A} (body body' : S -> A -> outcome S) :
  (forall st x, body st x = body' st x) ->
  forall xs st, forRange body st xs = forRange body' st xs.
Proof.
  intros Hext xs. induction xs as [| x xs IH]; intros st; cbn; [reflexivity |].
  rewrite Hext. destruct (body' st x); cbn; auto.
Qed.

Lemma selectBody_guard_redundant counts i st chpt :
  selectBody counts i st chpt = selectBody_noGuard counts i st chpt.
Proof.
  unfold selectBody, selectBody_noGuard.
  destruct (index (strings_Split chpt fieldSep) 1) as [f1 | |]; cbn; try reflexivity.
  destruct (strconv_Atoi f1) as [treeSize |]; [| reflexivity].
  destruct ((i <=? countOf counts (strconv_Itoa treeSize))
            && (maxTreeSize st <=? treeSize)); [| reflexivity].
  destruct (index (strings_Split chpt fieldSep) 3) as [f3 | |]; cbn; try reflexivity.
  destruct (index (strings_Split f3 ":") 1) as [t | |]; cbn; try reflexivity.
  destruct (strconv_ParseInt (strings_TrimSpace t)) as [timestamp |]; [| reflexivity].
  rewrite Z.eqb_refl. reflexivity.
Qed.

(** C5.  When the guard [treeSize == maxTreeSize] is evaluated,
    [maxTreeSize] has just been assigned [treeSize], so the guard holds;
    the selection scan therefore computes, on every input, what the scan
    without that guard computes. *)
Theorem select_equality_guard_redundant :
  forall counts i checkpoints,
    select counts i checkpoints = select_noGuard counts i checkpoints.
Proof.
  intros counts i checkpoints. unfold select, select_noGuard.
  apply forRange_ext. intros st chpts.
  apply forRange_ext. intros st' chpt.
  apply selectBody_guard_redundant.
Qed.

(** ** Scanning a file line by line *)

(** The lines a Scanner delivers from [contents] when every one of them is
    kept, and the error it ends with: the reading loop of
    [deleteOldCheckpoints]. *)
Definition scanLines (contents : string) : list string * option error :=
  forScan (fun lines text => lines ++ [text]) [] (bufio_NewScanner contents).

(** The tokens delivered before the scanner stops, and why it stopped. *)
Fixpoint scanned (scanner : list string) : list string * option error :=
  match scanner with
  | [] => ([], None)
  | raw :: rest =>
      if tooLong raw then ([], Some ErrTooLong)
      else (dropCR raw :: (scanned rest).1, (scanned rest).2)
  end.

Lemma forScan_scanned {S} (body : S -> string -> S) (st : S) scanner :
  forScan body st scanner
  = (foldl body st (scanned scanner).1, (scanned scanner).2).
Proof.
  revert st. induction scanner as [| raw rest IH]; intros st; cbn; [reflexivity |].
  destruct (tooLong raw); cbn; [reflexivity | apply IH].
Qed.

Lemma foldl_snoc_collect (acc toks : list string) :
  foldl (fun lines text => lines ++ [text]) acc toks = acc ++ toks.
Proof.
  revert acc. induction toks as [| t toks IH]; intros acc; cbn.
  - symmetry. apply app_nil_r.
  - rewrite IH, <- app_assoc. reflexivity.
Qed.

Lemma scanLines_scanned contents :
  scanLines contents = scanned (rawLines contents).
Proof.
  unfold scanLines, bufio_NewScanner. rewrite forScan_scanned, foldl_snoc_collect.
  cbn. destruct (scanned (rawLines contents)); reflexivity.
Qed.

(** The last two elements of a slice: [s[len(s)-2:]], or all of a shorter one. *)
Definition lastTwo (l : list string) : list string := drop (length l - 2) l.

(** The body of the reading loop of [readLatestCheckpoints]. *)
Definition keepTwo (checkpoints : list string) (text : string) : list string :=
  let checkpoints := checkpoints ++ [text] in
  if (2 <? length checkpoints)%nat
  then drop (length checkpoints - 2) checkpoints
  else checkpoints.

Lemma keepTwo_lastTwo checkpoints text :
  keepTwo checkpoints text = lastTwo (checkpoints ++ [text]).
Proof.
  unfold keepTwo, lastTwo.
  destruct (Nat.ltb_spec 2 (length (checkpoints ++ [text]))) as [Hlt | Hle];
    [reflexivity |].
  replace (length (checkpoints ++ [text]) - 2)%nat with 0%nat by lia.
  reflexivity.
Qed.

Lemma lastTwo_app_lastTwo (l r : list string) :
  lastTwo (lastTwo l ++ r) = lastTwo (l ++ r).
Proof.
  unfold lastTwo.
  rewrite <- (drop_app_le l r (length l - 2)) by lia.
  rewrite drop_drop. f_equal.
  rewrite length_drop, length_app. lia.
Qed.

Lemma length_lastTwo (l : list string) :
  length (lastTwo l) = Nat.min (length l) 2.
Proof. unfold lastTwo. rewrite length_drop. lia. Qed.

Lemma foldl_keepTwo (acc toks : list string) :
  (length acc <= 2)%nat -> foldl keepTwo acc toks = lastTwo (acc ++ toks).
Proof.
  revert acc. induction toks as [| t toks IH]; intros acc Hacc; cbn [foldl].
  - rewrite app_nil_r. unfold lastTwo.
    replace (length acc - 2)%nat with 0%nat by lia. reflexivity.
  - rewrite IH, keepTwo_lastTwo.
    + rewrite lastTwo_app_lastTwo, <- app_assoc. reflexivity.
    + rewrite keepTwo_lastTwo, length_lastTwo. lia.
Qed.

Lemma readLatestCheckpoints_unfold fs filename :
  readLatestCheckpoints fs filename =
  match os_Open fs filename with
  | Err e => Err e
  | Ok contents =>
      match (scanLines contents).2 with
      | Some e => Err e
      | None => Ok (lastTwo (scanLines contents).1)
      end
  end.
Proof.
  unfold readLatestCheckpoints. destruct (os_Open fs filename) as [contents | e];
    [| reflexivity].
  change (fun checkpoints text => _) with keepTwo.
  rewrite scanLines_scanned. unfold bufio_NewScanner.
  rewrite forScan_scanned, foldl_keepTwo by (cbn; lia).
  destruct (scanned (rawLines contents)) as [lines [e |]]; reflexivity.
Qed.


(** ** Lines of text *)

Definition newline : string := String LF EmptyString.

(** [lines] written one per line, each followed by a line feed: what the
    rewriting loop of [deleteOldCheckpoints] produces. *)
Fixpoint unlines (lines : list string) : string :=
  match lines with
  | [] => EmptyString
  | l :: ls => l +:+ newline +:+ unlines ls
  end.

Fixpoint noLF (s : string) : bool :=
  match s with
  | EmptyString => true
  | String a s' => negb (Ascii.eqb a LF) && noLF s'
  end.

(** Empty, or ending with a line feed. *)
Fixpoint lineTerminated (s : string) : bool :=
  match s with
  | EmptyString => true
  | String a EmptyString => Ascii.eqb a LF
  | String _ s' => lineTerminated s'
  end.

Lemma string_app_cons a (s t : string) : String a s +:+ t = String a (s +:+ t).
Proof. reflexivity. Qed.

Lemma string_app_nil_l (t : string) : EmptyString +:+ t = t.
Proof. reflexivity. Qed.

Lemma string_app_nil_r (s : string) : s +:+ EmptyString = s.
Proof.
  induction s as [| a s IH]; [reflexivity |].
  rewrite string_app_cons, IH. reflexivity.
Qed.

Lemma string_app_assoc (s t u : string) : (s +:+ t) +:+ u = s +:+ (t +:+ u).
Proof.
  induction s as [| a s IH]; [reflexivity |].
  rewrite !string_app_cons, IH. reflexivity.
Qed.

Lemma string_length_app (s t : string) :
  String.length (s +:+ t) = (String.length s + String.length t)%nat.
Proof.
  induction s as [| a s IH]; [reflexivity |].
  rewrite string_app_cons. cbn. rewrite IH. reflexivity.
Qed.

Lemma rawLines_nil_inv s : rawLines s = [] -> s = EmptyString.
Proof.
  destruct s as [| a s]; [reflexivity |]. cbn.
  destruct (Ascii.eqb a LF); [discriminate |].
  destruct (rawLines s); discriminate.
Qed.

Lemma rawLines_line (l s : string) :
  noLF l = true -> rawLines (l +:+ String LF s) = l :: rawLines s.
Proof.
  induction l as [| a l IH]; intros Hl.
  - reflexivity.
  - cbn in Hl. apply andb_true_iff in Hl as [Ha Hl].
    rewrite string_app_cons. cbn.
    apply negb_true_iff in Ha. rewrite Ha, (IH Hl). reflexivity.
Qed.

Lemma rawLines_unlines (ls : list string) :
  Forall (fun l => noLF l = true) ls -> rawLines (unlines ls) = ls.
Proof.
  induction 1 as [| l ls Hl _ IH]; [reflexivity |].
  cbn [unlines]. change (newline +:+ unlines ls) with (String LF (unlines ls)).
  rewrite (rawLines_line _ _ Hl), IH. reflexivity.
Qed.

Lemma rawLines_noLF (s : string) : Forall (fun l => noLF l = true) (rawLines s).
Proof.
  induction s as [| a s IH]; cbn; [constructor |].
  destruct (Ascii.eqb a LF) eqn:Ha.
  - constructor; [reflexivity | exact IH].
  - destruct (rawLines s) as [| l ls]; constructor.
    + cbn. rewrite Ha. reflexivity.
    + constructor.
    + cbn. rewrite Ha. apply (Forall_inv IH).
    + apply (Forall_inv_tail IH).
Qed.

(** After a terminated text, appended text starts a line of its own. *)
Lemma rawLines_app_terminated (s t : string) :
  lineTerminated s = true -> rawLines (s +:+ t) = rawLines s ++ rawLines t.
Proof.
  induction s as [| a s IH]; intros Hs; [reflexivity |].
  rewrite string_app_cons. cbn [rawLines].
  destruct s as [| b s'].
  - cbn in Hs. rewrite Hs. reflexivity.
  - specialize (IH Hs). rewrite IH.
    destruct (Ascii.eqb a LF); [reflexivity |].
    destruct (rawLines (String b s')) as [| l ls] eqn:Hraw; [| reflexivity].
    apply rawLines_nil_inv in Hraw. discriminate Hraw.
Qed.

Lemma lineTerminated_app (s t : string) :
  t <> EmptyString -> lineTerminated (s +:+ t) = lineTerminated t.
Proof.
  intros Ht. induction s as [| a s IH]; [reflexivity |].
  rewrite string_app_cons. cbn [lineTerminated].
  destruct (s +:+ t) eqn:E; [| exact IH].
  destruct s; [rewrite string_app_nil_l in E; contradiction | discriminate E].
Qed.

Lemma lineTerminated_app_newline (s l : string) :
  lineTerminated (s +:+ (l +:+ newline)) = true.
Proof.
  rewrite lineTerminated_app by (destruct l; discriminate).
  rewrite lineTerminated_app by discriminate. reflexivity.
Qed.

Lemma lineTerminated_unlines (ls : list string) : lineTerminated (unlines ls) = true.
Proof.
  destruct ls as [| l ls]; [reflexivity |]. cbn [unlines].
  revert l. induction ls as [| l' ls IH]; intros l.
  - cbn [unlines]. rewrite lineTerminated_app by discriminate. reflexivity.
  - cbn [unlines]. rewrite lineTerminated_app by discriminate.
    change (newline +:+ ?x) with (String LF x). cbn [lineTerminated].
    destruct (l' +:+ newline +:+ unlines ls) eqn:E; [| rewrite <- E; apply IH].
    destruct l'; discriminate E.
Qed.

(** What the scanner delivers: no line feed inside, never a full buffer. *)
Definition goodToken (t : string) : Prop :=
  noLF t = true /\ tooLong t = false.

Lemma dropCR_noLF s : noLF s = true -> noLF (dropCR s) = true.
Proof.
  induction s as [| a s IH]; [reflexivity |]. intros H.
  cbn in H. apply andb_true_iff in H as [Ha Hs]. cbn [dropCR].
  destruct s as [| b s'].
  - destruct (Ascii.eqb a CR); [reflexivity |]. cbn. rewrite Ha. reflexivity.
  - cbn [noLF]. rewrite Ha. cbn [andb]. apply IH, Hs.
Qed.

Lemma dropCR_length s : (String.length (dropCR s) <= String.length s)%nat.
Proof.
  induction s as [| a s IH]; [reflexivity |]. cbn [dropCR].
  destruct s as [| b s'].
  - destruct (Ascii.eqb a CR); cbn; lia.
  - cbn [String.length] in *. lia.
Qed.

Lemma tooLong_dropCR s : tooLong s = false -> tooLong (dropCR s) = false.
Proof.
  unfold tooLong. intros H. apply Z.leb_gt in H. apply Z.leb_gt.
  pose proof (dropCR_length s). lia.
Qed.

Lemma scanned_tokens scanner :
  Forall (fun raw => noLF raw = true) scanner ->
  Forall goodToken (scanned scanner).1.
Proof.
  induction 1 as [| raw rest Hraw _ IH]; cbn; [constructor |].
  destruct (tooLong raw) eqn:Hlong; cbn; [constructor |].
  constructor; [| exact IH].
  split; [apply dropCR_noLF, Hraw | apply tooLong_dropCR, Hlong].
Qed.

Lemma scanLines_tokens contents : Forall goodToken (scanLines contents).1.
Proof. rewrite scanLines_scanned. apply scanned_tokens, rawLines_noLF. Qed.

Lemma scanned_app scanner1 scanner2 :
  (scanned scanner1).2 = None ->
  scanned (scanner1 ++ scanner2)
  = ((scanned scanner1).1 ++ (scanned scanner2).1, (scanned scanner2).2).
Proof.
  induction scanner1 as [| raw rest IH]; cbn.
  - intros _. destruct (scanned scanner2); reflexivity.
  - destruct (tooLong raw); cbn; [discriminate |].
    intros H. rewrite (IH H). reflexivity.
Qed.

Lemma scanned_good (ls : list string) :
  Forall goodToken ls -> scanned ls = (map dropCR ls, None).
Proof.
  induction 1 as [| l ls [_ Hlong] _ IH]; cbn; [reflexivity |].
  rewrite Hlong, IH. reflexivity.
Qed.

(** Re-reading lines that were written one per line gives them back, less
    one more trailing carriage return each. *)
Lemma scanLines_unlines (ls : list string) :
  Forall goodToken ls -> scanLines (unlines ls) = (map dropCR ls, None).
Proof.
  intros Hls. rewrite scanLines_scanned, rawLines_unlines.
  - apply scanned_good, Hls.
  - eapply Forall_impl; [exact Hls |]. intros l [Hl _]. exact Hl.
Qed.

(** ** Writing through a handle *)

Lemma file_write_lookup (fs : filesystem) name s f :
  fs !! name = Some f ->
  file_write fs name s !! name
  = Some (mkFile (data f +:+ s) (readable f) (writable f)).
Proof. intros Hf. unfold file_write. rewrite lookup_alter_eq, Hf. reflexivity. Qed.

Lemma foldl_file_write_lookup (fs : filesystem) name (g : nat -> string)
    (idx : list nat) d r w :
  fs !! name = Some (mkFile d r w) ->
  foldl (fun fs' i => file_write fs' name (g i)) fs idx !! name
  = Some (mkFile (d +:+ foldr (fun i acc => g i +:+ acc) EmptyString idx) r w).
Proof.
  revert fs d. induction idx as [| i idx IH]; intros fs d Hf; cbn [foldl foldr].
  - rewrite string_app_nil_r. exact Hf.
  - rewrite (IH _ (d +:+ g i)).
    + rewrite string_app_assoc. reflexivity.
    + rewrite (file_write_lookup _ _ _ _ Hf). reflexivity.
Qed.

Lemma written_lines (lines : list string) (first n : nat) :
  (first + n <= length lines)%nat ->
  foldr (fun i acc => (default EmptyString (lines !! i) +:+ newline) +:+ acc)
        EmptyString (seq first n)
  = unlines (take n (drop first lines)).
Proof.
  revert first. induction n as [| n IH]; intros first Hle;
    [rewrite take_0; reflexivity |].
  cbn [seq foldr].
  destruct (lines !! first) as [l |] eqn:Hl.
  - rewrite (drop_S _ _ _ Hl). cbn [take unlines default].
    rewrite IH by lia. rewrite string_app_assoc. reflexivity.
  - apply lookup_ge_None in Hl. lia.
Qed.

(** What a successful [deleteOldCheckpoints] leaves in the file. *)
Lemma deleteOldCheckpoints_lookup (fs fs' : filesystem) name f :
  fs !! name = Some f ->
  deleteOldCheckpoints fs name = Ok fs' ->
  exists lines,
    scanLines (data f) = (lines, None)
    /\ fs' !! name
       = Some (mkFile (if (length lines <=? 20)%nat then data f
                       else unlines (drop (length lines - 20) lines))
                      (readable f) (writable f)).
Proof.
  intros Hf. unfold deleteOldCheckpoints, os_Open. rewrite Hf.
  destruct (readable f) eqn:Hr; [| discriminate].
  fold (scanLines (data f)).
  destruct (scanLines (data f)) as [lines [e |]]; [discriminate |].
  exists lines. split; [reflexivity |].
  destruct (Nat.leb_spec (length lines) 20) as [Hle | Hgt].
  - injection H as <-. rewrite Hf. destruct f; cbn in *. rewrite Hr. reflexivity.
  - revert H. unfold os_OpenFile_trunc. rewrite Hf, Hr.
    destruct (writable f) eqn:Hw; [| discriminate]. cbn [andb].
    intros H. injection H as <-.
    erewrite foldl_file_write_lookup; [| apply lookup_insert_eq].
    rewrite string_app_nil_l.
    change (fun i acc => _) with
      (fun i acc => (default EmptyString (lines !! i) +:+ newline) +:+ acc).
    rewrite written_lines by lia.
    rewrite take_ge by (rewrite length_drop; lia). reflexivity.
Qed.

(** ** Loops *)

Lemma forRange_app {S A} (body : S -> A -> outcome S) (xs ys : list A) st :
  forRange body st (xs ++ ys)
  = (st' ← forRange body st xs; forRange body st' ys).
Proof.
  revert st. induction xs as [| x xs IH]; intros st; cbn; [reflexivity |].
  destruct (body st x); cbn; [apply IH | reflexivity | reflexivity].
Qed.

(** The nested [range] loops visit the checkpoints in the order of their
    concatenation. *)
Lemma forRange_concat {S A} (body : S -> A -> outcome S) (xss : list (list A)) st :
  forRange (fun st xs => forRange body st xs) st xss
  = forRange body st (concat xss).
Proof.
  revert st. induction xss as [| xs xss IH]; intros st; cbn; [reflexivity |].
  rewrite forRange_app.
  destruct (forRange body st xs); cbn; [apply IH | reflexivity | reflexivity].
Qed.

Lemma forRange_invariant {S A} (P : S -> Prop) (body : S -> A -> outcome S)
    (xs : list A) :
  (forall st x st', x ∈ xs -> P st -> body st x = Normal st' -> P st') ->
  forall st st', P st -> forRange body st xs = Normal st' -> P st'.
Proof.
  induction xs as [| x xs IH]; intros Hbody st st' Hst Hrun; cbn in Hrun.
  - injection Hrun as <-. exact Hst.
  - destruct (body st x) as [st1 | |] eqn:Hx; cbn in Hrun; try discriminate.
    apply (IH (fun st x' st' Hin => Hbody st x' st' (list_elem_of_further _ _ _ Hin))
              st1 st'); [| exact Hrun].
    apply (Hbody st x st1); [left | exact Hst | exact Hx].
Qed.

(** ** What the selection scan can select *)

Lemma selectBody_latest counts i st chpt st' :
  selectBody counts i st chpt = Normal st' ->
  latest_chpt st' = latest_chpt st \/ latest_chpt st' = chpt.
Proof.
  unfold selectBody.
  destruct (index (strings_Split chpt fieldSep) 1) as [f1 | |]; cbn; try discriminate.
  destruct (strconv_Atoi f1) as [treeSize |]; [| discriminate].
  destruct ((i <=? countOf counts (strconv_Itoa treeSize))
            && (maxTreeSize st <=? treeSize)); [| intros [= <-]; left; reflexivity].
  destruct (index (strings_Split chpt fieldSep) 3) as [f3 | |]; cbn; try discriminate.
  destruct (index (strings_Split f3 ":") 1) as [t | |]; cbn; try discriminate.
  destruct (strconv_ParseInt (strings_TrimSpace t)) as [timestamp |];
    [| intros [= <-]; left; reflexivity].
  destruct ((treeSize =? treeSize) && (largestTimestamp st <? timestamp));
    intros [= <-]; [right | left]; reflexivity.
Qed.

Lemma select_latest counts i checkpoints sel :
  select counts i checkpoints = Normal sel ->
  latest_chpt sel = EmptyString \/ latest_chpt sel ∈ concat checkpoints.
Proof.
  unfold select. rewrite forRange_concat.
  apply (forRange_invariant
           (fun st => latest_chpt st = EmptyString
                      \/ latest_chpt st ∈ concat checkpoints)).
  - intros st chpt st' Hin Hst Hbody.
    destruct (selectBody_latest _ _ _ _ _ Hbody) as [-> | ->];
      [exact Hst | right; exact Hin].
  - left. reflexivity.
Qed.

Lemma readLatestCheckpoints_tokens fs filename chpts :
  readLatestCheckpoints fs filename = Ok chpts -> Forall goodToken chpts.
Proof.
  rewrite readLatestCheckpoints_unfold.
  destruct (os_Open fs filename) as [contents |]; [| discriminate].
  pose proof (scanLines_tokens contents) as Htok.
  destruct (scanLines contents) as [lines [e |]]; cbn in *; [discriminate |].
  intros [= <-]. apply Forall_drop, Htok.
Qed.

Lemma readAll_tokens fs monitors checkpoints :
  readAll fs monitors = Normal checkpoints ->
  Forall goodToken (concat checkpoints).
Proof.
  unfold readAll.
  apply (forRange_invariant (fun cps => Forall goodToken (concat cps))).
  - intros cps monitor cps' _ Hcps.
    destruct (readLatestCheckpoints fs monitor) as [chpts |] eqn:Hread;
      [| discriminate].
    intros [= <-]. rewrite concat_app. apply Forall_app. split; [exact Hcps |].
    cbn. rewrite app_nil_r. apply (readLatestCheckpoints_tokens _ _ _ Hread).
  - constructor.
Qed.

(** ** Retention of the accepted-checkpoint log *)

(** The bytes of the accepted-checkpoint log; none when it does not exist. *)
Definition acceptedData (fs : filesystem) : string :=
  match fs !! AcceptedChptFile with
  | Some f => data f
  | None => EmptyString
  end.

(** The steps of a cycle that ran to its end. *)
Lemma cycle_Normal_inv (fs fs' : filesystem) msgs :
  cycle fs = Normal (fs', msgs) ->
  exists monitors checkpoints counts fs1 sel,
    filepath_Glob fs = Ok monitors
    /\ readAll fs monitors = Normal checkpoints
    /\ tally checkpoints = Normal counts
    /\ os_OpenFile_append fs AcceptedChptFile = Ok fs1
    /\ select counts (quorumThreshold (Z.of_nat (length monitors))) checkpoints
       = Normal sel
    /\ deleteOldCheckpoints
         (file_write fs1 AcceptedChptFile (latest_chpt sel +:+ newline))
         AcceptedChptFile = Ok fs'
    /\ msgs = logged sel.
Proof.
  unfold cycle. destruct (filepath_Glob fs) as [monitors |]; [| discriminate].
  destruct (readAll fs monitors) as [checkpoints | |] eqn:Hread;
    cbn [mbind outcome_bind obind]; try discriminate.
  destruct (tally checkpoints) as [counts | |] eqn:Htally;
    cbn [mbind outcome_bind obind]; try discriminate.
  destruct (os_OpenFile_append fs AcceptedChptFile) as [fs1 |] eqn:Hopen;
    [| discriminate].
  destruct (select counts _ checkpoints) as [sel | |] eqn:Hsel;
    cbn [mbind outcome_bind obind]; try discriminate.
  fold newline.
  destruct (deleteOldCheckpoints _ AcceptedChptFile) as [fs3 |] eqn:Hdel;
    [| discriminate].
  intros [= <- <-]. exists monitors, checkpoints, counts, fs1, sel.
  repeat (split; [first [assumption | reflexivity] |]). reflexivity.
Qed.

Lemma os_OpenFile_append_lookup (fs fs1 : filesystem) name :
  os_OpenFile_append fs name = Ok fs1 ->
  exists f1, fs1 !! name = Some f1
             /\ data f1 = match fs !! name with
                          | Some f => data f
                          | None => EmptyString
                          end.
Proof.
  unfold os_OpenFile_append. destruct (fs !! name) as [f |] eqn:Hf.
  - destruct (writable f); [| discriminate]. intros [= <-].
    exists f. rewrite Hf. split; reflexivity.
  - intros [= <-]. eexists. rewrite lookup_insert_eq. split; reflexivity.
Qed.

(** Appending one line to a terminated log adds exactly one line. *)
Lemma scanLines_append_line (d sel : string) old lines :
  lineTerminated d = true ->
  noLF sel = true ->
  scanLines d = (old, None) ->
  scanLines (d +:+ (sel +:+ newline)) = (lines, None) ->
  lines = old ++ [dropCR sel].
Proof.
  intros Hd Hsel. rewrite !scanLines_scanned.
  rewrite (rawLines_app_terminated _ _ Hd).
  unfold newline. rewrite (rawLines_line _ _ Hsel). intros Hold.
  rewrite scanned_app by (rewrite Hold; reflexivity).
  rewrite Hold. cbn. destruct (tooLong sel); cbn; [discriminate |].
  intros [= <-]. reflexivity.
Qed.

(** What a completed cycle leaves in the log: the old bytes and the
    selected checkpoint on a line of its own, cut down to the last 20 lines
    when that makes more than 20. *)
Lemma cycle_accepted_data (fs fs' : filesystem) msgs :
  cycle fs = Normal (fs', msgs) ->
  exists (sel : selection) (lines : list string),
    evaluate fs = Normal sel
    /\ noLF (latest_chpt sel) = true
    /\ scanLines (acceptedData fs +:+ (latest_chpt sel +:+ newline)) = (lines, None)
    /\ acceptedData fs'
       = if (length lines <=? 20)%nat
         then acceptedData fs +:+ (latest_chpt sel +:+ newline)
         else unlines (drop (length lines - 20) lines).
Proof.
  intros Hcycle.
  destruct (cycle_Normal_inv _ _ _ Hcycle)
    as (monitors & checkpoints & counts & fs1 & st & Hglob & Hread & Htally & Hopen
        & Hsel & Hdel & _).
  destruct (os_OpenFile_append_lookup _ _ _ Hopen) as (f1 & Hf1 & Hdata).
  fold (acceptedData fs) in Hdata.
  pose proof (file_write_lookup _ _ (latest_chpt st +:+ newline) _ Hf1) as Hf2.
  destruct (deleteOldCheckpoints_lookup _ _ _ _ Hf2 Hdel) as (lines & Hscan & Hf3).
  cbn [data readable writable] in Hscan, Hf3. rewrite Hdata in Hscan, Hf3.
  exists st, lines. split; [| split; [| split; [exact Hscan |]]].
  - unfold evaluate. rewrite Hglob, Hread. cbn [mbind outcome_bind obind].
    rewrite Htally. exact Hsel.
  - destruct (select_latest _ _ _ _ Hsel) as [-> | Hin]; [reflexivity |].
    pose proof (readAll_tokens _ _ _ Hread) as Htok.
    rewrite Forall_forall in Htok. apply (Htok _ Hin).
  - unfold acceptedData at 1. rewrite Hf3. reflexivity.
Qed.

(** A completed cycle leaves the log ending with a line feed. *)
Lemma cycle_accepted_terminated (fs fs' : filesystem) msgs :
  cycle fs = Normal (fs', msgs) -> lineTerminated (acceptedData fs') = true.
Proof.
  intros Hcycle.
  destruct (cycle_accepted_data _ _ _ Hcycle) as (sel & lines & _ & _ & _ & ->).
  destruct (length lines <=? 20)%nat;
    [apply lineTerminated_app_newline | apply lineTerminated_unlines].
Qed.

(** C3.  After every completed cycle the accepted-checkpoint log has at
    most 20 lines; when the log has more than 20 lines after the append,
    it is rewritten to exactly its last 20 lines, in order; a (terminated)
    log of 25 lines that receives the selected checkpoint as its 26th line
    is rewritten to the last 20 of those 26 lines. *)
Theorem accepted_log_keeps_last_twenty (fs fs' : filesystem) msgs :
  cycle fs = Normal (fs', msgs) ->
  exists (st : selection) (lines kept : list string),
    let sel := latest_chpt st in
    evaluate fs = Normal st
    /\ noLF sel = true
    /\ scanLines (acceptedData fs +:+ (sel +:+ newline)) = (lines, None)
    /\ scanLines (acceptedData fs') = (kept, None)
    /\ (length kept <= 20)%nat
    /\ ((20 < length lines)%nat ->
        acceptedData fs' = unlines (drop (length lines - 20) lines)
        /\ length (drop (length lines - 20) lines) = 20%nat)
    /\ ((length lines <= 20)%nat ->
        acceptedData fs' = acceptedData fs +:+ (sel +:+ newline))
    /\ (forall old,
          scanLines (acceptedData fs) = (old, None) ->
          lineTerminated (acceptedData fs) = true ->
          length old = 25%nat ->
          lines = old ++ [dropCR sel]
          /\ acceptedData fs' = unlines (drop 6 (old ++ [dropCR sel]))).
Proof.
  intros Hcycle.
  destruct (cycle_accepted_data _ _ _ Hcycle)
    as (st & lines & Heval & Hnolf & Hscan & Hacc).
  pose proof (scanLines_tokens (acceptedData fs +:+ (latest_chpt st +:+ newline)))
    as Htok.
  rewrite Hscan in Htok. cbn [fst] in Htok.
  assert (H25 : forall old,
             scanLines (acceptedData fs) = (old, None) ->
             lineTerminated (acceptedData fs) = true ->
             length old = 25%nat ->
             lines = old ++ [dropCR (latest_chpt st)]
             /\ (length lines <=? 20)%nat = false
             /\ (length lines - 20 = 6)%nat).
  { intros old Hold Hterm Hlen.
    pose proof (scanLines_append_line _ _ _ _ Hterm Hnolf Hold Hscan) as ->.
    rewrite length_app, Hlen. cbn. repeat split; reflexivity. }
  exists st, lines.
  destruct (Nat.leb_spec (length lines) 20) as [Hle | Hgt].
  - exists lines. cbn zeta. rewrite Hacc.
    split; [exact Heval |].
    split; [exact Hnolf |]. split; [exact Hscan |]. split; [exact Hscan |].
    split; [exact Hle |]. split; [lia |]. split; [reflexivity |].
    intros old Hold Hterm Hlen.
    destruct (H25 old Hold Hterm Hlen) as (_ & Hfalse & _).
    discriminate Hfalse.
  - exists (map dropCR (drop (length lines - 20) lines)). cbn zeta. rewrite Hacc.
    split; [exact Heval |].
    split; [exact Hnolf |]. split; [exact Hscan |].
    split; [apply scanLines_unlines, Forall_drop, Htok |].
    split; [rewrite length_map, length_drop; lia |].
    split; [intros _; split; [reflexivity | rewrite length_drop; lia] |].
    split; [lia |].
    intros old Hold Hterm Hlen.
    destruct (H25 old Hold Hterm Hlen) as (Hlines & _ & Hsix).
    split; [exact Hlines |]. rewrite Hsix, Hlines. reflexivity.
Qed.

(** A directory with one monitor and a log of 25 accepted checkpoints. *)
Definition checkpointLine (size timestamp : Z) : string :=
  "O\n" +:+ strconv_Itoa size +:+ "\nHASH\ntimestamp: " +:+ strconv_Itoa timestamp.

Definition plainFile (contents : string) : file := mkFile contents true true.

Definition log25 : list string :=
  map (fun k => checkpointLine (Z.of_nat k) (1000 + Z.of_nat k)) (seq 1 25).

Definition dir25 : filesystem :=
  <[AcceptedChptFile := plainFile (unlines log25)]>
    (<["logInfo0.txt" := plainFile (unlines [checkpointLine 26 1026])]> ∅).

Lemma accepted_log_keeps_last_twenty_witness :
  exists fs',
    cycle dir25 = Normal (fs', [])
    /\ acceptedData fs' = unlines (drop 6 (log25 ++ [checkpointLine 26 1026])).
Proof.
  exists (<[AcceptedChptFile :=
             plainFile (unlines (drop 6 (log25 ++ [checkpointLine 26 1026])))]> dir25).
  assert (Hcycle : cycle dir25
                   = Normal (<[AcceptedChptFile :=
                       plainFile (unlines (drop 6 (log25 ++ [checkpointLine 26 1026])))]>
                       dir25, []))
    by (vm_compute; reflexivity).
  split; [exact Hcycle |].
  destruct (accepted_log_keeps_last_twenty _ _ _ Hcycle)
    as (st & lines & kept & Heval & _ & _ & _ & _ & _ & _ & H25).
  assert (Hst : evaluate dir25
                = Normal (mkSelection 26 1026 (checkpointLine 26 1026) []))
    by (vm_compute; reflexivity).
  rewrite Hst in Heval. injection Heval as <-.
  destruct (H25 log25) as [_ Hdata];
    [vm_compute; reflexivity | vm_compute; reflexivity | reflexivity |].
  exact Hdata.
Defined.

(** ** The quorum tally *)

Lemma strconv_Itoa_inj (a b : Z) : strconv_Itoa a = strconv_Itoa b -> a = b.
Proof.
  unfold strconv_Itoa. intros H. apply DecimalZ.to_int_inj.
  assert (Hsome : forall z, NilZero.int_of_string (NilZero.string_of_int (Z.to_int z))
                            = Some (Z.to_int z)).
  { intros z. apply NilZero.isi; destruct z; cbn; try discriminate;
      intros [= E]; exact (DecimalPos.Unsigned.to_uint_nonnil _ E). }
  pose proof (Hsome a) as Ha. rewrite H, Hsome in Ha. congruence.
Qed.

(** The tree size a checkpoint line reports: its second field as a decimal
    integer, when there is one. *)
Definition treeSizeOf (chpt : string) : option Z :=
  match strings_Split chpt fieldSep !! 1%nat with
  | Some f1 =>
      match strconv_Atoi f1 with
      | Ok treeSize => Some treeSize
      | Err _ => None
      end
  | None => None
  end.

(** The number of checkpoint lines among [chpts] that report [size]. *)
Definition votes (size : Z) (chpts : list string) : Z :=
  Z.of_nat (length (filter (fun chpt => treeSizeOf chpt = Some size) chpts)).

Lemma votes_cons size chpt chpts :
  votes size (chpt :: chpts)
  = (if decide (treeSizeOf chpt = Some size) then 1 else 0) + votes size chpts.
Proof.
  unfold votes. rewrite filter_cons.
  destruct (decide (treeSizeOf chpt = Some size)); cbn [length]; lia.
Qed.

Lemma votes_app size xs ys : votes size (xs ++ ys) = votes size xs + votes size ys.
Proof. unfold votes. rewrite filter_app, length_app. lia. Qed.

Lemma tallyBody_Normal counts chpt counts' :
  tallyBody counts chpt = Normal counts' ->
  exists size,
    treeSizeOf chpt = Some size
    /\ counts' = <[strconv_Itoa size := countOf counts (strconv_Itoa size) + 1]> counts.
Proof.
  unfold tallyBody, treeSizeOf, index.
  destruct (strings_Split chpt fieldSep !! 1%nat) as [f1 |];
    cbn [mbind outcome_bind obind]; [| discriminate].
  destruct (strconv_Atoi f1) as [size |]; [| discriminate].
  intros [= <-]. exists size. split; reflexivity.
Qed.

Lemma countOf_insert counts size n other :
  countOf (<[strconv_Itoa size := n]> counts) (strconv_Itoa other)
  = if decide (size = other) then n else countOf counts (strconv_Itoa other).
Proof.
  unfold countOf. destruct (decide (size = other)) as [-> | Hne].
  - rewrite lookup_insert_eq. reflexivity.
  - rewrite lookup_insert_ne; [reflexivity |].
    intros E. apply Hne, strconv_Itoa_inj, E.
Qed.

Lemma tally_from counts0 chpts counts :
  forRange tallyBody counts0 chpts = Normal counts ->
  (forall size, countOf counts (strconv_Itoa size)
                = countOf counts0 (strconv_Itoa size) + votes size chpts)
  /\ (forall key, is_Some (counts !! key) ->
        is_Some (counts0 !! key)
        \/ exists size, key = strconv_Itoa size /\ 0 < votes size chpts).
Proof.
  revert counts0. induction chpts as [| chpt chpts IH]; intros counts0; cbn [forRange].
  - intros [= <-]. split; [intros size; unfold votes; cbn; lia | auto].
  - destruct (tallyBody counts0 chpt) as [counts1 | |] eqn:Hbody;
      cbn [mbind outcome_bind obind]; try discriminate.
    intros Hrest. destruct (IH _ Hrest) as [Hcount Hkeys].
    destruct (tallyBody_Normal _ _ _ Hbody) as (size0 & Hsize0 & ->).
    assert (Hpos : forall size, 0 <= votes size chpts) by (intros; unfold votes; lia).
    split.
    + intros size. rewrite Hcount, countOf_insert, votes_cons, Hsize0.
      destruct (decide (size0 = size)) as [-> | Hne].
      * rewrite decide_True by reflexivity. lia.
      * rewrite decide_False by congruence. lia.
    + intros key Hkey. destruct (Hkeys key Hkey) as [Hin | (size & -> & Hv)].
      * destruct (decide (strconv_Itoa size0 = key)) as [<- | Hne].
        -- right. exists size0. split; [reflexivity |].
           rewrite votes_cons, Hsize0, decide_True by reflexivity.
           specialize (Hpos size0). lia.
        -- left. rewrite lookup_insert_ne in Hin by exact Hne. exact Hin.
      * right. exists size. split; [reflexivity |]. rewrite votes_cons.
        destruct (decide (treeSizeOf chpt = Some size)); lia.
Qed.

(** C4.  The tally maps each observed tree size to the number of
    checkpoint lines that report it, over all monitors' retained
    histories; lines are counted one by one, so a monitor whose two
    retained checkpoints report the same size gives that size two votes. *)
Theorem tally_counts_every_line (checkpoints : list (list string)) counts :
  tally checkpoints = Normal counts ->
  (forall size,
      countOf counts (strconv_Itoa size) = votes size (concat checkpoints))
  /\ (forall key, is_Some (counts !! key) ->
        exists size, key = strconv_Itoa size /\ 0 < votes size (concat checkpoints))
  /\ (forall before a b after size,
        checkpoints = before ++ [a; b] :: after ->
        treeSizeOf a = Some size ->
        treeSizeOf b = Some size ->
        countOf counts (strconv_Itoa size)
        = votes size (concat before) + 2 + votes size (concat after)).
Proof.
  unfold tally. rewrite forRange_concat. intros Hrun.
  destruct (tally_from _ _ _ Hrun) as [Hcount Hkeys].
  assert (Hall : forall size,
             countOf counts (strconv_Itoa size) = votes size (concat checkpoints)).
  { intros size. rewrite Hcount. unfold countOf. rewrite lookup_empty. cbn. lia. }
  split; [exact Hall |]. split.
  - intros key Hkey. destruct (Hkeys key Hkey) as [Hin | Hex]; [| exact Hex].
    rewrite lookup_empty in Hin. destruct Hin as [? [=]].
  - intros before a b after size -> Ha Hb. rewrite Hall.
    rewrite concat_app, votes_app. cbn [concat app].
    rewrite !votes_cons, Ha, Hb, !decide_True by reflexivity. lia.
Qed.

Lemma tally_counts_every_line_witness :
  countOf {[ "7" := 2 ]} (strconv_Itoa 7)
  = votes 7 (concat [[checkpointLine 7 100; checkpointLine 7 200]])
  /\ countOf {[ "7" := 2 ]} (strconv_Itoa 7)
     = votes 7 (concat []) + 2 + votes 7 (concat []).
Proof.
  assert (Htally : tally [[checkpointLine 7 100; checkpointLine 7 200]]
                   = Normal {[ "7" := 2 ]}) by (vm_compute; reflexivity).
  destruct (tally_counts_every_line _ _ Htally) as (Hcount & _ & Htwo).
  split; [exact (Hcount 7) |].
  apply (Htwo [] (checkpointLine 7 100) (checkpointLine 7 200) [] 7); reflexivity.
Defined.

(** ** Malformed checkpoint lines *)

(** The process ended: a fatal exit or a panic. *)
Definition aborted {A} (o : outcome A) : Prop :=
  match o with Normal _ => False | _ => True end.

(** A checkpoint line is well-fielded when the selection loop can read
    every field it may touch: a decimal tree size in field 1, and a colon
    in field 3. *)
Definition wellFielded (chpt : string) : Prop :=
  exists f1 size f3 t,
    strings_Split chpt fieldSep !! 1%nat = Some f1
    /\ strconv_Atoi f1 = Ok size
    /\ strings_Split chpt fieldSep !! 3%nat = Some f3
    /\ strings_Split f3 ":" !! 1%nat = Some t.

Lemma wellFielded_treeSizeOf chpt : wellFielded chpt -> is_Some (treeSizeOf chpt).
Proof.
  intros (f1 & size & _ & _ & H1 & Hsize & _). unfold treeSizeOf.
  rewrite H1, Hsize. eexists. reflexivity.
Qed.

Lemma tallyBody_counted counts chpt :
  is_Some (treeSizeOf chpt) -> exists counts', tallyBody counts chpt = Normal counts'.
Proof.
  unfold treeSizeOf, tallyBody, index. intros [size H].
  destruct (strings_Split chpt fieldSep !! 1%nat) as [f1 |]; [| discriminate].
  cbn [mbind outcome_bind obind].
  destruct (strconv_Atoi f1); [| discriminate]. eexists. reflexivity.
Qed.

(** The tally runs through lines that report a size, whatever it started
    from. *)
Lemma tally_through counts pre :
  Forall (fun chpt => is_Some (treeSizeOf chpt)) pre ->
  exists counts', forRange tallyBody counts pre = Normal counts'.
Proof.
  intros Hpre. revert counts.
  induction Hpre as [| chpt pre Hchpt _ IH]; intros counts; cbn [forRange].
  - eexists. reflexivity.
  - destruct (tallyBody_counted counts chpt Hchpt) as [counts1 ->].
    cbn [mbind outcome_bind obind]. apply IH.
Qed.

(** The tally stops at the first line it cannot count, with what that
    line makes its body do. *)
Lemma tally_first_failure checkpoints pre chpt post :
  concat checkpoints = pre ++ chpt :: post ->
  Forall (fun c => is_Some (treeSizeOf c)) pre ->
  (forall counts, tallyBody counts chpt = tallyBody ∅ chpt) ->
  aborted (tallyBody ∅ chpt) ->
  tally checkpoints = tallyBody ∅ chpt.
Proof.
  intros Hcat Hpre Hsame Hab. unfold tally. rewrite forRange_concat, Hcat, forRange_app.
  destruct (tally_through ∅ pre Hpre) as [counts1 ->].
  cbn [mbind outcome_bind obind forRange]. rewrite Hsame.
  destruct (tallyBody ∅ chpt); [destruct Hab | reflexivity | reflexivity].
Qed.

Lemma tally_aborts_anywhere checkpoints chpt :
  chpt ∈ concat checkpoints ->
  treeSizeOf chpt = None ->
  aborted (tally checkpoints).
Proof.
  unfold tally. rewrite forRange_concat. generalize (concat checkpoints) as chpts.
  generalize (∅ : gmap string Z) as counts.
  intros counts chpts. revert counts.
  induction chpts as [| c chpts IH]; intros counts Hin Hnone;
    [apply elem_of_nil in Hin; destruct Hin |].
  cbn [forRange].
  destruct (tallyBody counts c) as [counts1 | |] eqn:Hbody;
    cbn [mbind outcome_bind obind]; try exact I.
  apply elem_of_cons in Hin as [-> | Hin]; [| apply IH; assumption].
  destruct (tallyBody_Normal _ _ _ Hbody) as (size & Hsize & _). congruence.
Qed.

(** Every way a cycle can end once its tally has aborted. *)
Lemma cycle_tally_aborted fs monitors checkpoints :
  filepath_Glob fs = Ok monitors ->
  readAll fs monitors = Normal checkpoints ->
  aborted (tally checkpoints) ->
  aborted (cycle fs) /\ aborted (evaluate fs).
Proof.
  intros Hglob Hread Hab. unfold cycle, evaluate. rewrite Hglob, Hread.
  cbn [mbind outcome_bind obind].
  destruct (tally checkpoints); [destruct Hab | split; exact I | split; exact I].
Qed.

Lemma selectBody_through counts i st chpt :
  wellFielded chpt -> exists st', selectBody counts i st chpt = Normal st'.
Proof.
  intros (f1 & size & f3 & t & H1 & Hsize & H3 & Ht).
  unfold selectBody, index. rewrite H1. cbn [mbind outcome_bind obind].
  rewrite Hsize.
  destruct ((i <=? countOf counts (strconv_Itoa size)) && (maxTreeSize st <=? size));
    [| eexists; reflexivity].
  rewrite H3. cbn [mbind outcome_bind obind]. rewrite Ht.
  cbn [mbind outcome_bind obind].
  destruct (strconv_ParseInt (strings_TrimSpace t)); [| eexists; reflexivity].
  match goal with |- context [if ?b then _ else _] => destruct b end;
    eexists; reflexivity.
Qed.

(** Whatever the timestamps, well-fielded histories are evaluated to the
    end. *)
Lemma evaluator_completes checkpoints i :
  Forall wellFielded (concat checkpoints) ->
  exists counts sel,
    tally checkpoints = Normal counts /\ select counts i checkpoints = Normal sel.
Proof.
  intros Hwf.
  destruct (tally_through ∅ (concat checkpoints)) as [counts Htally].
  { eapply Forall_impl; [exact Hwf | apply wellFielded_treeSizeOf]. }
  exists counts. unfold tally, select. rewrite !forRange_concat.
  rewrite Htally. revert Hwf. generalize initialSelection as st.
  generalize (concat checkpoints) as chpts. clear Htally.
  induction chpts as [| chpt chpts IH]; intros st Hwf.
  - exists st. split; reflexivity.
  - apply Forall_cons in Hwf as [Hchpt Hwf]. cbn [forRange].
    destruct (selectBody_through counts i st chpt Hchpt) as [st1 ->].
    cbn [mbind outcome_bind obind].
    destruct (IH st1 Hwf) as (sel & _ & Hsel). exists sel. split; [reflexivity | exact Hsel].
Qed.

(** The timestamp of a checkpoint line as the selection loop reads it. *)
Definition timestampOf (chpt : string) : option Z :=
  match strings_Split chpt fieldSep !! 3%nat with
  | Some f3 =>
      match strings_Split f3 ":" !! 1%nat with
      | Some t =>
          match strconv_ParseInt (strings_TrimSpace t) with
          | Ok timestamp => Some timestamp
          | Err _ => None
          end
      | None => None
      end
  | None => None
  end.

Lemma selectBody_selected_timestamp counts i st chpt st' :
  selectBody counts i st chpt = Normal st' ->
  latest_chpt st' = latest_chpt st
  \/ latest_chpt st' = chpt /\ is_Some (timestampOf chpt).
Proof.
  unfold selectBody, timestampOf, index.
  destruct (strings_Split chpt fieldSep !! 1%nat) as [f1 |];
    cbn [mbind outcome_bind obind]; [| discriminate].
  destruct (strconv_Atoi f1) as [treeSize |]; [| discriminate].
  destruct ((i <=? countOf counts (strconv_Itoa treeSize))
            && (maxTreeSize st <=? treeSize)); [| intros [= <-]; left; reflexivity].
  destruct (strings_Split chpt fieldSep !! 3%nat) as [f3 |];
    cbn [mbind outcome_bind obind]; [| discriminate].
  destruct (strings_Split f3 ":" !! 1%nat) as [t |];
    cbn [mbind outcome_bind obind]; [| discriminate].
  destruct (strconv_ParseInt (strings_TrimSpace t)) as [timestamp |];
    [| intros [= <-]; left; reflexivity].
  match goal with |- context [if ?b then _ else _] => destruct b end;
    intros [= <-]; [right; split; [reflexivity | eexists; reflexivity] | left; reflexivity].
Qed.

Lemma select_selected_timestamp counts i checkpoints sel :
  select counts i checkpoints = Normal sel ->
  latest_chpt sel = EmptyString \/ is_Some (timestampOf (latest_chpt sel)).
Proof.
  unfold select. rewrite forRange_concat.
  apply (forRange_invariant
           (fun st => latest_chpt st = EmptyString
                      \/ is_Some (timestampOf (latest_chpt st)))).
  - intros st chpt st' _ Hst Hbody.
    destruct (selectBody_selected_timestamp _ _ _ _ _ Hbody) as [-> | [-> Hts]];
      [exact Hst | right; exact Hts].
  - left. reflexivity.
Qed.

(** C6.  A checkpoint that passes the quorum-and-running-max guard but
    whose timestamp does not parse is logged and skipped: the running max
    keeps the update, the candidate and the largest timestamp stay, and the
    loop goes on.  Histories of well-fielded lines are therefore evaluated
    to the end whatever their timestamps, and what is selected has a
    timestamp that parses.  A tree-size field that does not parse, on any
    line, ends the process: with the fatal message when no earlier line
    stops the tally first. *)
Theorem malformed_timestamp_skipped_malformed_size_fatal :
  (forall counts i st chpt f1 treeSize f3 t e,
      strings_Split chpt fieldSep !! 1%nat = Some f1 ->
      strconv_Atoi f1 = Ok treeSize ->
      i <= countOf counts (strconv_Itoa treeSize) ->
      maxTreeSize st <= treeSize ->
      strings_Split chpt fieldSep !! 3%nat = Some f3 ->
      strings_Split f3 ":" !! 1%nat = Some t ->
      strconv_ParseInt (strings_TrimSpace t) = Err e ->
      selectBody counts i st chpt
      = Normal (mkSelection treeSize (largestTimestamp st) (latest_chpt st)
                            (logged st ++ [ParsingTimestamp e])))
  /\ (forall checkpoints i,
        Forall wellFielded (concat checkpoints) ->
        exists counts sel,
          tally checkpoints = Normal counts
          /\ select counts i checkpoints = Normal sel
          /\ (latest_chpt sel = EmptyString
              \/ is_Some (timestampOf (latest_chpt sel))))
  /\ (forall fs monitors checkpoints chpt f1 e,
        filepath_Glob fs = Ok monitors ->
        readAll fs monitors = Normal checkpoints ->
        chpt ∈ concat checkpoints ->
        strings_Split chpt fieldSep !! 1%nat = Some f1 ->
        strconv_Atoi f1 = Err e ->
        aborted (tally checkpoints) /\ aborted (cycle fs))
  /\ (forall checkpoints pre chpt post f1 e,
        concat checkpoints = pre ++ chpt :: post ->
        Forall (fun c => is_Some (treeSizeOf c)) pre ->
        strings_Split chpt fieldSep !! 1%nat = Some f1 ->
        strconv_Atoi f1 = Err e ->
        tally checkpoints = Fatal (FatalTreeSize e)).
Proof.
  split; [| split; [| split]].
  - intros counts i st chpt f1 treeSize f3 t e H1 Hsize Hquorum Hmax H3 Ht Hparse.
    unfold selectBody, index. rewrite H1. cbn [mbind outcome_bind obind].
    rewrite Hsize.
    apply Z.leb_le in Hquorum, Hmax. rewrite Hquorum, Hmax. cbn [andb].
    rewrite H3. cbn [mbind outcome_bind obind]. rewrite Ht.
    cbn [mbind outcome_bind obind]. rewrite Hparse. reflexivity.
  - intros checkpoints i Hwf.
    destruct (evaluator_completes checkpoints i Hwf) as (counts & sel & Htally & Hsel).
    exists counts, sel. split; [exact Htally |]. split; [exact Hsel |].
    apply (select_selected_timestamp _ _ _ _ Hsel).
  - intros fs monitors checkpoints chpt f1 e Hglob Hread Hin H1 Hsize.
    assert (Hab : aborted (tally checkpoints)).
    { apply (tally_aborts_anywhere _ chpt Hin). unfold treeSizeOf.
      rewrite H1, Hsize. reflexivity. }
    split; [exact Hab |]. apply (cycle_tally_aborted _ _ _ Hglob Hread Hab).
  - intros checkpoints pre chpt post f1 e Hcat Hpre H1 Hsize.
    assert (Hbody : forall counts, tallyBody counts chpt = Fatal (FatalTreeSize e)).
    { intros counts. unfold tallyBody, index. rewrite H1.
      cbn [mbind outcome_bind obind]. rewrite Hsize. reflexivity. }
    rewrite (tally_first_failure _ _ _ _ Hcat Hpre); rewrite ?Hbody; try exact I.
    + reflexivity.
    + intros counts. rewrite !Hbody. reflexivity.
Qed.

(** A monitor whose newest checkpoint carries a timestamp that is no
    number, and one whose newest checkpoint carries a size that is none. *)
Definition dirBadTimestamp : filesystem :=
  {[ "logInfo0.txt" := plainFile (unlines ["O\n5\nHASH\ntimestamp: soon"]) ]}.

Definition dirBadSize : filesystem :=
  {[ "logInfo0.txt" := plainFile (unlines [checkpointLine 5 100; "O\nfive\nHASH\ntimestamp: 101"]) ]}.

Lemma malformed_timestamp_skipped_malformed_size_fatal_witness :
  selectBody {[ "5" := 1 ]} 1 initialSelection "O\n5\nHASH\ntimestamp: soon"
  = Normal (mkSelection 5 0 EmptyString [ParsingTimestamp (ErrSyntax "soon")])
  /\ cycle dirBadTimestamp
     = Normal (<[AcceptedChptFile := plainFile newline]> dirBadTimestamp,
               [ParsingTimestamp (ErrSyntax "soon")])
  /\ tally [[checkpointLine 5 100; "O\nfive\nHASH\ntimestamp: 101"]]
     = Fatal (FatalTreeSize (ErrSyntax "five"))
  /\ cycle dirBadSize = Fatal (FatalTreeSize (ErrSyntax "five")).
Proof.
  destruct malformed_timestamp_skipped_malformed_size_fatal
    as (Hskip & _ & _ & Hfatal).
  split; [| split; [| split]].
  - apply (Hskip {[ "5" := 1 ]} 1 initialSelection "O\n5\nHASH\ntimestamp: soon"
                 "5" 5 "timestamp: soon" " soon" (ErrSyntax "soon"));
      first [reflexivity | vm_compute; discriminate].
  - vm_compute. reflexivity.
  - apply (Hfatal [[checkpointLine 5 100; "O\nfive\nHASH\ntimestamp: 101"]]
                  [checkpointLine 5 100] "O\nfive\nHASH\ntimestamp: 101" []
                  "five" (ErrSyntax "five"));
      [reflexivity | | reflexivity | reflexivity].
    repeat constructor. vm_compute. eexists. reflexivity.
  - vm_compute. reflexivity.
Defined.

(** ** Field accesses out of range *)

Lemma genSplit_length fuel s sep : (1 <= length (genSplit fuel s sep))%nat.
Proof.
  destruct fuel as [| fuel]; cbn; [lia |].
  destruct (String.index 0 sep s); cbn; lia.
Qed.

(** A line without the separator is a single field. *)
Lemma strings_Split_no_separator s sep :
  String.index 0 sep s = None -> strings_Split s sep = [s].
Proof.
  unfold strings_Split. intros H. destruct (String.length s); cbn; [reflexivity |].
  rewrite H. reflexivity.
Qed.

Lemma fieldSep_fewer_than_two_fields chpt :
  String.index 0 fieldSep chpt = None
  <-> (length (strings_Split chpt fieldSep) < 2)%nat.
Proof.
  split.
  - intros H. rewrite (strings_Split_no_separator _ _ H). cbn. lia.
  - unfold strings_Split. destruct chpt as [| a chpt]; [reflexivity |].
    cbn [String.length genSplit].
    destruct (String.index 0 fieldSep (String a chpt)) as [m |]; [| reflexivity].
    cbn [length]. pose proof (genSplit_length (String.length chpt)
      (string_drop (m + String.length fieldSep) (String a chpt)) fieldSep). lia.
Qed.

Lemma index_in_range {A} (xs : list A) (i : nat) x :
  xs !! i = Some x -> index xs i = Normal x.
Proof. intros H. unfold index. rewrite H. reflexivity. Qed.

Lemma index_out_of_range {A} (xs : list A) (i : nat) :
  (length xs <= i)%nat -> index xs i = Panic (IndexOutOfRange i (length xs)).
Proof. intros H. unfold index. rewrite (lookup_ge_None_2 _ _ H). reflexivity. Qed.

(** A line with one field, a line with two, a line whose fourth field has
    no colon: each alone in the log of the only monitor. *)
Definition dirOneField : filesystem :=
  {[ "logInfo0.txt" := plainFile (unlines ["rekor.sigstore.dev - 2605736670972794746"]) ]}.

Definition dirTwoFields : filesystem :=
  {[ "logInfo0.txt" := plainFile (unlines ["O\n5"]) ]}.

Definition dirNoColon : filesystem :=
  {[ "logInfo0.txt" := plainFile (unlines ["O\n5\nHASH\ntimestamp 100"]) ]}.

(** C8.  The field accesses of the quorum evaluator are partial.  A line
    without the backslash-n separator has fewer than two fields, and the
    tally panics on the first such line; a line that passes the guard of
    the selection loop with fewer than four fields, or with a fourth field
    without a colon, makes the selection loop panic.  Such lines reach the
    evaluator from a monitor's log, and the process then ends by a panic:
    neither the fatal exit of a tree size that does not parse nor the
    logged skip of a timestamp that does not. *)
Theorem field_accesses_can_panic :
  (forall chpt,
      String.index 0 fieldSep chpt = None
      <-> (length (strings_Split chpt fieldSep) < 2)%nat)
  /\ (forall checkpoints pre chpt post,
        concat checkpoints = pre ++ chpt :: post ->
        Forall (fun c => is_Some (treeSizeOf c)) pre ->
        (length (strings_Split chpt fieldSep) < 2)%nat ->
        tally checkpoints
        = Panic (IndexOutOfRange 1 (length (strings_Split chpt fieldSep))))
  /\ (forall counts i st chpt size,
        treeSizeOf chpt = Some size ->
        i <= countOf counts (strconv_Itoa size) ->
        maxTreeSize st <= size ->
        (length (strings_Split chpt fieldSep) < 4)%nat ->
        selectBody counts i st chpt
        = Panic (IndexOutOfRange 3 (length (strings_Split chpt fieldSep))))
  /\ (forall counts i st chpt size f3,
        treeSizeOf chpt = Some size ->
        i <= countOf counts (strconv_Itoa size) ->
        maxTreeSize st <= size ->
        strings_Split chpt fieldSep !! 3%nat = Some f3 ->
        String.index 0 ":" f3 = None ->
        selectBody counts i st chpt = Panic (IndexOutOfRange 1 1))
  /\ (cycle dirOneField = Panic (IndexOutOfRange 1 1)
      /\ cycle dirTwoFields = Panic (IndexOutOfRange 3 2)
      /\ cycle dirNoColon = Panic (IndexOutOfRange 1 1)
      /\ main [] [id] dirOneField = [EvPanic (IndexOutOfRange 1 1)]).
Proof.
  split; [exact fieldSep_fewer_than_two_fields |].
  assert (Hguard : forall counts i st chpt size,
             treeSizeOf chpt = Some size ->
             i <= countOf counts (strconv_Itoa size) ->
             maxTreeSize st <= size ->
             selectBody counts i st chpt
             = (f3 ← index (strings_Split chpt fieldSep) 3;
                t ← index (strings_Split f3 ":") 1;
                match strconv_ParseInt (strings_TrimSpace t) with
                | Err e =>
                    Normal (mkSelection size (largestTimestamp st) (latest_chpt st)
                                        (logged st ++ [ParsingTimestamp e]))
                | Ok timestamp =>
                    if (size =? size) && (largestTimestamp st <? timestamp)
                    then Normal (mkSelection size timestamp chpt (logged st))
                    else Normal (mkSelection size (largestTimestamp st)
                                             (latest_chpt st) (logged st))
                end)).
  { intros counts i st chpt size Hsize Hquorum Hmax.
    unfold treeSizeOf in Hsize. unfold selectBody.
    destruct (strings_Split chpt fieldSep !! 1%nat) as [f1 |] eqn:H1; [| discriminate].
    rewrite (index_in_range _ _ _ H1). cbn [mbind outcome_bind obind].
    destruct (strconv_Atoi f1) as [size' |]; [| discriminate].
    injection Hsize as ->. apply Z.leb_le in Hquorum, Hmax.
    rewrite Hquorum, Hmax. reflexivity. }
  split; [| split; [| split]].
  - intros checkpoints pre chpt post Hcat Hpre Hlen.
    assert (Hbody : forall counts,
               tallyBody counts chpt
               = Panic (IndexOutOfRange 1 (length (strings_Split chpt fieldSep)))).
    { intros counts. unfold tallyBody. rewrite index_out_of_range by lia. reflexivity. }
    rewrite (tally_first_failure _ _ _ _ Hcat Hpre); rewrite ?Hbody; try exact I.
    + reflexivity.
    + intros counts. rewrite !Hbody. reflexivity.
  - intros counts i st chpt size Hsize Hquorum Hmax Hlen.
    rewrite (Hguard _ _ _ _ _ Hsize Hquorum Hmax).
    rewrite index_out_of_range by lia. reflexivity.
  - intros counts i st chpt size f3 Hsize Hquorum Hmax H3 Hcolon.
    rewrite (Hguard _ _ _ _ _ Hsize Hquorum Hmax).
    rewrite (index_in_range _ _ _ H3). cbn [mbind outcome_bind obind].
    rewrite (strings_Split_no_separator _ _ Hcolon). reflexivity.
  - repeat split; vm_compute; reflexivity.
Qed.

Lemma field_accesses_can_panic_witness :
  tally [[checkpointLine 5 100]; ["no separator here"]]
  = Panic (IndexOutOfRange 1 1)
  /\ selectBody {[ "5" := 1 ]} 1 initialSelection "O\n5"
     = Panic (IndexOutOfRange 3 2)
  /\ selectBody {[ "5" := 1 ]} 1 initialSelection "O\n5\nHASH\ntimestamp 100"
     = Panic (IndexOutOfRange 1 1).
Proof.
  destruct field_accesses_can_panic as (_ & Htally & Hfew & Hcolon & _).
  split; [| split].
  - apply (Htally [[checkpointLine 5 100]; ["no separator here"]]
                  [checkpointLine 5 100] "no separator here" []);
      [reflexivity | | vm_compute; lia].
    repeat constructor. vm_compute. eexists. reflexivity.
  - apply (Hfew {[ "5" := 1 ]} 1 initialSelection "O\n5" 5);
      [reflexivity | vm_compute; discriminate | vm_compute; discriminate
       | vm_compute; lia].
  - apply (Hcolon {[ "5" := 1 ]} 1 initialSelection "O\n5\nHASH\ntimestamp 100"
                  5 "timestamp 100");
      [reflexivity | vm_compute; discriminate | vm_compute; discriminate
       | reflexivity | reflexivity].
Defined.

(** ** Which checkpoint is accepted when two sizes reach the quorum *)

(** Four monitors.  The first lags one entry behind with a clock ahead of
    the others; the other three each retain the checkpoints of sizes 100
    and 101. *)
Definition dirLaggard : filesystem :=
  <["logInfo0.txt" := plainFile (unlines [checkpointLine 100 9000])]>
  (<["logInfo1.txt" := plainFile (unlines [checkpointLine 100 5000; checkpointLine 101 5001])]>
  (<["logInfo2.txt" := plainFile (unlines [checkpointLine 100 5000; checkpointLine 101 5001])]>
  (<["logInfo3.txt" := plainFile (unlines [checkpointLine 100 5000; checkpointLine 101 5001])]>
   ∅))).

(** One monitor whose older checkpoint carries the later timestamp. *)
Definition dirClockStep : filesystem :=
  {[ "logInfo0.txt" := plainFile (unlines [checkpointLine 5 100; checkpointLine 10 50]) ]}.

(** C1, on the code.  In [dirLaggard] the sizes 100 and 101 both reach the
    threshold 3 (with 4 and 3 votes), the running max ends at 101, and the
    checkpoint appended to the accepted log is one of size 100: the
    candidate is replaced only by a larger timestamp, and the largest
    timestamp seen is not reset when the running max grows.  The same
    happens with a single monitor in [dirClockStep]. *)
Theorem larger_eligible_size_not_accepted :
  (quorumThreshold 4 = 3
   /\ (exists monitors checkpoints counts,
         filepath_Glob dirLaggard = Ok monitors
         /\ length monitors = 4%nat
         /\ readAll dirLaggard monitors = Normal checkpoints
         /\ tally checkpoints = Normal counts
         /\ countOf counts (strconv_Itoa 100) = 4
         /\ countOf counts (strconv_Itoa 101) = 3)
   /\ evaluate dirLaggard
      = Normal (mkSelection 101 9000 (checkpointLine 100 9000) [])
   /\ treeSizeOf (checkpointLine 100 9000) = Some 100
   /\ cycle dirLaggard
      = Normal (<[AcceptedChptFile := plainFile (unlines [checkpointLine 100 9000])]>
                  dirLaggard, []))
  /\ (evaluate dirClockStep
      = Normal (mkSelection 10 100 (checkpointLine 5 100) [])
      /\ cycle dirClockStep
         = Normal (<[AcceptedChptFile := plainFile (unlines [checkpointLine 5 100])]>
                     dirClockStep, [])).
Proof.
  split; [split; [reflexivity |]; split |].
  - eexists _, _, _. split; [vm_compute; reflexivity |].
    split; [reflexivity |]. split; [vm_compute; reflexivity |].
    split; [vm_compute; reflexivity |]. split; vm_compute; reflexivity.
  - repeat split; vm_compute; reflexivity.
  - split; vm_compute; reflexivity.
Qed.

(** ** The interval between cycles *)

(** C10, on the code.  [main] defines the flag [interval] and never calls
    [flag.Parse]: the variable keeps its default, so the sleep between
    cycles is one minute whatever the command line says. *)
Theorem interval_flag_never_parsed :
  (forall args env fs, main args env fs = mainLoop Minute env fs)
  /\ main ["-interval=5s"] [id; id] ∅
     = [EvSleep 60000000000; EvSleep 60000000000].
Proof.
  split; [intros args env fs; reflexivity | vm_compute; reflexivity].
Qed.

(** ** Monitor discovery *)

(** The monitors of a cycle are the entries of the working directory that
    match the pattern. *)
Lemma filepath_Glob_elem_of (fs : filesystem) :
  exists monitors,
    filepath_Glob fs = Ok monitors
    /\ forall m, m ∈ monitors <-> is_Some (fs !! m) /\ matchLogInfo m = true.
Proof.
  eexists. split; [reflexivity |]. intros m.
  rewrite merge_sort_Permutation, list_elem_of_filter, list_elem_of_fmap.
  split.
  - intros [Hmatch ([m' f] & -> & Hin)]. apply elem_of_map_to_list in Hin.
    split; [exists f; exact Hin | exact Hmatch].
  - intros [[f Hf] Hmatch]. split; [exact Hmatch |].
    exists (m, f). split; [reflexivity | apply elem_of_map_to_list, Hf].
Qed.

(** Filling a slice of the right length index by index. *)
Lemma fill_by_index {A B} (g : A -> B) (l : list A) (acc : list B) (k : nat) :
  (k + length l <= length acc)%nat ->
  foldl (fun ms im => <[im.1 := g im.2]> ms) acc (imap (fun i x => ((k + i)%nat, x)) l)
  = take k acc ++ map g l ++ drop (k + length l) acc.
Proof.
  revert acc k. induction l as [| x l IH]; intros acc k Hlen.
  - cbn. rewrite Nat.add_0_r, take_drop. reflexivity.
  - rewrite imap_cons. cbn [foldl fst snd length] in *.
    rewrite (imap_ext _ (fun i y => ((S k + i)%nat, y)))
      by (intros i y _; cbn; f_equal; lia).
    rewrite IH by (rewrite length_insert; lia).
    rewrite Nat.add_0_r.
    rewrite (take_S_r _ _ (g x)) by (apply list_lookup_insert_eq; lia).
    rewrite take_insert_ge by lia.
    rewrite drop_insert_lt by lia.
    rewrite <- app_assoc. cbn. rewrite Nat.add_succ_r. reflexivity.
Qed.

Section MonitorList.

Variable json_Unmarshal : string -> result monitorList.

Lemma initMonitors_unfold (fs : filesystem) path :
  initMonitors json_Unmarshal fs path =
  match os_Open fs path with
  | Err e => Err e
  | Ok contents =>
      match json_Unmarshal contents with
      | Err e => Err e
      | Ok list => Ok (map Logfile (Monitors list))
      end
  end.
Proof.
  unfold initMonitors. destruct (os_Open fs path) as [contents |]; [| reflexivity].
  destruct (json_Unmarshal contents) as [list |]; [| reflexivity].
  f_equal. rewrite (fill_by_index Logfile (Monitors list) _ 0)
    by (rewrite length_replicate; lia).
  rewrite take_0, drop_ge by (rewrite length_replicate; cbn; lia).
  cbn. apply app_nil_r.
Qed.

(** C9, as the code has it.  [initMonitors] returns, in order, the
    logfile value of each entry of the decoded monitors array, and fails
    when the file cannot be read or the decoder rejects its contents.
    The periodic cycle does not call it: the monitors of a cycle are the
    directory entries matching logInfo*.txt, which the monitor-list file
    is not. *)
Theorem initMonitors_lists_logfiles_cycle_globs :
  (forall (fs : filesystem) path,
      match os_Open fs path with
      | Err e => initMonitors json_Unmarshal fs path = Err e
      | Ok contents =>
          match json_Unmarshal contents with
          | Err e => initMonitors json_Unmarshal fs path = Err e
          | Ok list =>
              initMonitors json_Unmarshal fs path
              = Ok (map Logfile (Monitors list))
          end
      end)
  /\ (forall fs : filesystem,
        exists monitors,
          filepath_Glob fs = Ok monitors
          /\ (forall m, m ∈ monitors
                        <-> is_Some (fs !! m) /\ matchLogInfo m = true)
          /\ (MonitorList ∉ monitors)
          /\ evaluate fs
             = (checkpoints ← readAll fs monitors;
                counts ← tally checkpoints;
                select counts (quorumThreshold (Z.of_nat (length monitors)))
                       checkpoints)).
Proof.
  split.
  - intros fs path. rewrite initMonitors_unfold.
    destruct (os_Open fs path) as [contents |]; [| reflexivity].
    destruct (json_Unmarshal contents); reflexivity.
  - intros fs. destruct (filepath_Glob_elem_of fs) as (monitors & Hglob & Hin).
    exists monitors. split; [exact Hglob |]. split; [exact Hin |].
    split; [| unfold evaluate; rewrite Hglob; reflexivity].
    intros Hlist. apply Hin in Hlist as [_ Hmatch]. discriminate Hmatch.
Qed.

End MonitorList.

(** A directory whose monitor-list file names [other.txt], a log that the
    pattern does not match, beside one monitor log that it does match. *)
Definition quoted (s : string) : string :=
  String "034"%char s +:+ String "034"%char EmptyString.

Definition monitorListJSON : string :=
  "{" +:+ quoted "monitors" +:+ ":[{" +:+ quoted "description" +:+ ":"
      +:+ quoted "backup" +:+ "," +:+ quoted "logfile" +:+ ":"
      +:+ quoted "other.txt" +:+ "}]}".

(** What [json.Unmarshal] decodes [monitorListJSON] to; other documents
    are not needed here and are rejected. *)
Definition decodeListed (contents : string) : result monitorList :=
  if String.eqb contents monitorListJSON
  then Ok (mkMonitorList [mkEntry "backup" "other.txt"])
  else Err ErrJSON.

Definition dirListed : filesystem :=
  <[MonitorList := plainFile monitorListJSON]>
  (<["other.txt" := plainFile (unlines [checkpointLine 9 900])]>
  (<["logInfo0.txt" := plainFile (unlines [checkpointLine 5 100])]> ∅)).

(** C9 as stated fails: the monitor-list file names [other.txt], yet the
    monitors of the cycle are the glob's, the checkpoint selected comes
    from [logInfo0.txt], and removing the monitor-list file changes
    nothing. *)
Lemma monitor_list_file_not_consulted :
  initMonitors decodeListed dirListed MonitorList = Ok ["other.txt"]
  /\ filepath_Glob dirListed = Ok ["logInfo0.txt"]
  /\ evaluate dirListed = Normal (mkSelection 5 100 (checkpointLine 5 100) [])
  /\ evaluate (delete MonitorList dirListed) = evaluate dirListed.
Proof. repeat split; vm_compute; reflexivity. Qed.

(** * Further properties of the program *)

(** ** Files a cycle leaves alone *)

Lemma os_OpenFile_append_other (fs fs1 : filesystem) name other :
  os_OpenFile_append fs name = Ok fs1 -> other <> name -> fs1 !! other = fs !! other.
Proof.
  unfold os_OpenFile_append. destruct (fs !! name) as [f |].
  - destruct (writable f); [| discriminate]. intros [= <-] _. reflexivity.
  - intros [= <-] Hne. apply lookup_insert_ne. congruence.
Qed.

Lemma file_write_other (fs : filesystem) name s other :
  other <> name -> file_write fs name s !! other = fs !! other.
Proof. intros Hne. unfold file_write. apply lookup_alter_ne. congruence. Qed.

Lemma foldl_file_write_other (fs : filesystem) name (g : nat -> string)
    (idx : list nat) other :
  other <> name ->
  foldl (fun fs' i => file_write fs' name (g i)) fs idx !! other = fs !! other.
Proof.
  intros Hne. revert fs. induction idx as [| i idx IH]; intros fs; cbn [foldl];
    [reflexivity |].
  rewrite IH. apply file_write_other, Hne.
Qed.

(** [deleteOldCheckpoints] written out: its errors, and the directory it
    returns. *)
Lemma deleteOldCheckpoints_unfold (fs : filesystem) name :
  deleteOldCheckpoints fs name =
  match fs !! name with
  | None => Err ENOENT
  | Some f =>
      if readable f then
        match scanLines (data f) with
        | (_, Some e) => Err e
        | (lines, None) =>
            if (length lines <=? 20)%nat then Ok fs
            else if writable f
                 then Ok (<[name := mkFile (unlines (drop (length lines - 20) lines))
                                           true true]> fs)
                 else Err EACCES
        end
      else Err EACCES
  end.
Proof.
  unfold deleteOldCheckpoints, os_Open.
  destruct (fs !! name) as [f |] eqn:Hf; [| reflexivity].
  destruct (readable f) eqn:Hr; [| reflexivity].
  fold (scanLines (data f)).
  destruct (scanLines (data f)) as [lines [e |]]; [reflexivity |].
  destruct (Nat.leb_spec (length lines) 20) as [Hle | Hgt]; [reflexivity |].
  unfold os_OpenFile_trunc. rewrite Hf, Hr.
  destruct (writable f) eqn:Hw; [| reflexivity]. cbn [andb]. f_equal.
  apply map_eq. intros other. destruct (decide (other = name)) as [-> | Hne].
  - erewrite foldl_file_write_lookup; [| apply lookup_insert_eq].
    rewrite string_app_nil_l, lookup_insert_eq.
    change (fun i acc => _) with
      (fun i acc => (default EmptyString (lines !! i) +:+ newline) +:+ acc).
    rewrite written_lines by lia.
    rewrite take_ge by (rewrite length_drop; lia). reflexivity.
  - rewrite foldl_file_write_other by exact Hne.
    rewrite !lookup_insert_ne by congruence. reflexivity.
Qed.

Lemma deleteOldCheckpoints_other (fs fs' : filesystem) name other :
  deleteOldCheckpoints fs name = Ok fs' -> other <> name -> fs' !! other = fs !! other.
Proof.
  rewrite deleteOldCheckpoints_unfold. intros H Hne.
  destruct (fs !! name) as [f |]; [| discriminate].
  destruct (readable f); [| discriminate].
  destruct (scanLines (data f)) as [lines [e |]]; [discriminate |].
  destruct (length lines <=? 20)%nat; [injection H as <-; reflexivity |].
  destruct (writable f); [| discriminate]. injection H as <-.
  apply lookup_insert_ne. congruence.
Qed.

Lemma cycle_other_files (fs fs' : filesystem) msgs other :
  cycle fs = Normal (fs', msgs) ->
  other <> AcceptedChptFile ->
  fs' !! other = fs !! other.
Proof.
  intros Hcycle Hne.
  destruct (cycle_Normal_inv _ _ _ Hcycle)
    as (monitors & checkpoints & counts & fs1 & st & _ & _ & _ & Hopen & _ & Hdel & _).
  rewrite (deleteOldCheckpoints_other _ _ _ _ Hdel Hne).
  rewrite file_write_other by exact Hne.
  apply (os_OpenFile_append_other _ _ _ _ Hopen Hne).
Qed.

(** X1.  A completed cycle changes no file but the accepted-checkpoint
    log, which exists afterwards: the monitors' logs and every other entry
    of the directory are as they were. *)
Theorem cycle_changes_only_accepted_log (fs fs' : filesystem) msgs :
  cycle fs = Normal (fs', msgs) ->
  (forall other, other <> AcceptedChptFile -> fs' !! other = fs !! other)
  /\ is_Some (fs' !! AcceptedChptFile).
Proof.
  intros Hcycle. split.
  - intros other Hne. apply (cycle_other_files _ _ _ _ Hcycle Hne).
  - destruct (cycle_Normal_inv _ _ _ Hcycle)
      as (monitors & checkpoints & counts & fs1 & st & _ & _ & _ & Hopen & _ & Hdel & _).
    destruct (os_OpenFile_append_lookup _ _ _ Hopen) as (f1 & Hf1 & _).
    pose proof (file_write_lookup _ _ (latest_chpt st +:+ newline) _ Hf1) as Hf2.
    destruct (deleteOldCheckpoints_lookup _ _ _ _ Hf2 Hdel) as (lines & _ & ->).
    eexists. reflexivity.
Qed.

Lemma cycle_changes_only_accepted_log_witness :
  exists fs',
    cycle dirLaggard = Normal (fs', [])
    /\ fs' !! "logInfo2.txt" = dirLaggard !! "logInfo2.txt"
    /\ is_Some (fs' !! AcceptedChptFile).
Proof.
  eexists. split; [vm_compute; reflexivity |].
  match goal with
  | |- ?fs' !! _ = _ /\ _ =>
      assert (Hcycle : cycle dirLaggard = Normal (fs', [])) by (vm_compute; reflexivity)
  end.
  destruct (cycle_changes_only_accepted_log _ _ _ Hcycle) as [Hother Hlog].
  split; [apply Hother; discriminate | exact Hlog].
Defined.

(** X2.  [deleteOldCheckpoints] is idempotent: applied to the directory it
    returned, it succeeds and changes nothing.  It changes no other file. *)
Theorem deleteOldCheckpoints_idempotent (fs fs' : filesystem) name :
  deleteOldCheckpoints fs name = Ok fs' ->
  deleteOldCheckpoints fs' name = Ok fs'
  /\ (forall other, other <> name -> fs' !! other = fs !! other).
Proof.
  intros Hdel. split; [| intros other; apply (deleteOldCheckpoints_other _ _ _ _ Hdel)].
  revert Hdel. rewrite !deleteOldCheckpoints_unfold.
  destruct (fs !! name) as [f |] eqn:Hf; [| discriminate].
  destruct (readable f) eqn:Hr; [| discriminate].
  pose proof (scanLines_tokens (data f)) as Htok.
  destruct (scanLines (data f)) as [lines [e |]] eqn:Hscan; [discriminate |].
  cbn [fst] in Htok.
  destruct (Nat.leb_spec (length lines) 20) as [Hle | Hgt].
  - intros [= <-]. rewrite Hf, Hr, Hscan.
    destruct (Nat.leb_spec (length lines) 20); [reflexivity | lia].
  - destruct (writable f); [| discriminate]. intros [= <-].
    rewrite lookup_insert_eq. cbn [readable data].
    rewrite scanLines_unlines by (apply Forall_drop, Htok).
    rewrite length_map, length_drop.
    destruct (Nat.leb_spec (length lines - (length lines - 20)) 20); [reflexivity | lia].
Qed.

Lemma deleteOldCheckpoints_idempotent_witness :
  exists fs',
    deleteOldCheckpoints
      (<[AcceptedChptFile := plainFile (unlines log25)]> ∅) AcceptedChptFile = Ok fs'
    /\ deleteOldCheckpoints fs' AcceptedChptFile = Ok fs'.
Proof.
  eexists. split; [vm_compute; reflexivity |].
  match goal with
  | |- deleteOldCheckpoints ?fs' _ = _ =>
      assert (Hdel : deleteOldCheckpoints
                       (<[AcceptedChptFile := plainFile (unlines log25)]> ∅)
                       AcceptedChptFile = Ok fs') by (vm_compute; reflexivity)
  end.
  exact (proj1 (deleteOldCheckpoints_idempotent _ _ _ Hdel)).
Defined.


(** ** What the selection scan computes *)

(** A tree size is eligible when its count reaches the threshold. *)
Definition eligible (counts : gmap string Z) (i : Z) (size : Z) : Prop :=
  i <= countOf counts (strconv_Itoa size).

(** One pass of the body of the selection loop that returned. *)
Lemma selectBody_Normal_inv counts i st chpt st' :
  selectBody counts i st chpt = Normal st' ->
  exists size,
    treeSizeOf chpt = Some size
    /\ ((~ (eligible counts i size /\ maxTreeSize st <= size) /\ st' = st)
        \/ (eligible counts i size /\ maxTreeSize st <= size
            /\ maxTreeSize st' = size
            /\ ((timestampOf chpt = None
                 /\ largestTimestamp st' = largestTimestamp st
                 /\ latest_chpt st' = latest_chpt st)
                \/ (exists timestamp,
                      timestampOf chpt = Some timestamp
                      /\ logged st' = logged st
                      /\ ((largestTimestamp st < timestamp
                           /\ largestTimestamp st' = timestamp
                           /\ latest_chpt st' = chpt)
                          \/ (timestamp <= largestTimestamp st
                              /\ largestTimestamp st' = largestTimestamp st
                              /\ latest_chpt st' = latest_chpt st)))))).
Proof.
  unfold selectBody, treeSizeOf, timestampOf, eligible, index.
  destruct (strings_Split chpt fieldSep !! 1%nat) as [f1 |];
    cbn [mbind outcome_bind obind]; [| discriminate].
  destruct (strconv_Atoi f1) as [size |]; [| discriminate].
  intros H. exists size. split; [reflexivity |].
  destruct (Z.leb_spec i (countOf counts (strconv_Itoa size))) as [Hq | Hq];
    cbn [andb] in H; [| injection H as <-; left; split; [lia | reflexivity]].
  destruct (Z.leb_spec (maxTreeSize st) size) as [Hm | Hm];
    [| injection H as <-; left; split; [lia | reflexivity]].
  right. split; [exact Hq |]. split; [exact Hm |]. revert H.
  destruct (strings_Split chpt fieldSep !! 3%nat) as [f3 |];
    cbn [mbind outcome_bind obind]; [| discriminate].
  destruct (strings_Split f3 ":" !! 1%nat) as [t |];
    cbn [mbind outcome_bind obind]; [| discriminate].
  destruct (strconv_ParseInt (strings_TrimSpace t)) as [timestamp |].
  - cbn [maxTreeSize largestTimestamp latest_chpt logged]. rewrite Z.eqb_refl.
    cbn [andb]. destruct (Z.ltb_spec (largestTimestamp st) timestamp) as [Hlt | Hge];
      intros [= <-]; (split; [reflexivity |]); right; exists timestamp;
      (split; [reflexivity |]); (split; [reflexivity |]).
    + left. repeat split. exact Hlt.
    + right. repeat split. exact Hge.
  - intros [= <-]. split; [reflexivity |]. left. repeat split.
Qed.

(** An invariant that may speak of the checkpoints scanned so far. *)
Lemma forRange_invariant_prefix {S A} (P : list A -> S -> Prop)
    (body : S -> A -> outcome S) :
  (forall pre st x st', P pre st -> body st x = Normal st' -> P (pre ++ [x]) st') ->
  forall xs pre st st',
    P pre st -> forRange body st xs = Normal st' -> P (pre ++ xs) st'.
Proof.
  intros Hbody. induction xs as [| x xs IH]; intros pre st st' Hst Hrun; cbn in Hrun.
  - injection Hrun as <-. rewrite app_nil_r. exact Hst.
  - destruct (body st x) as [st1 | |] eqn:Hx; cbn in Hrun; try discriminate.
    rewrite (cons_middle x pre xs), app_assoc.
    apply (IH _ st1); [| exact Hrun]. apply (Hbody pre st x st1 Hst Hx).
Qed.

(** The invariant of the selection loop over the checkpoints scanned so
    far. *)
Definition selectionInvariant (counts : gmap string Z) (i : Z)
    (scanned_so_far : list string) (st : selection) : Prop :=
  0 <= maxTreeSize st
  /\ 0 <= largestTimestamp st
  /\ (forall chpt size,
        chpt ∈ scanned_so_far -> treeSizeOf chpt = Some size ->
        eligible counts i size -> size <= maxTreeSize st)
  /\ (maxTreeSize st = 0
      \/ exists chpt,
           chpt ∈ scanned_so_far /\ treeSizeOf chpt = Some (maxTreeSize st)
           /\ eligible counts i (maxTreeSize st))
  /\ ((latest_chpt st = EmptyString /\ largestTimestamp st = 0)
      \/ (latest_chpt st ∈ scanned_so_far
          /\ 0 < largestTimestamp st
          /\ timestampOf (latest_chpt st) = Some (largestTimestamp st)
          /\ exists size,
               treeSizeOf (latest_chpt st) = Some size
               /\ eligible counts i size /\ size <= maxTreeSize st))
  /\ (forall chpt size timestamp,
        chpt ∈ scanned_so_far -> treeSizeOf chpt = Some size ->
        eligible counts i size -> timestampOf chpt = Some timestamp ->
        maxTreeSize st <= size -> timestamp <= largestTimestamp st).

Lemma selectionInvariant_step counts i pre st chpt st' :
  selectionInvariant counts i pre st ->
  selectBody counts i st chpt = Normal st' ->
  selectionInvariant counts i (pre ++ [chpt]) st'.
Proof.
  intros (Hmax0 & Hts0 & Hub & Hwit & Hsel & Hdom) Hbody.
  destruct (selectBody_Normal_inv _ _ _ _ _ Hbody) as (size & Hsize & Hcase).
  assert (Hin : forall c, c ∈ pre ++ [chpt] <-> c ∈ pre \/ c = chpt).
  { intros c. rewrite elem_of_app, list_elem_of_singleton. reflexivity. }
  destruct Hcase as [[Hno ->] | (Hq & Hm & Hmax' & Hts)].
  - (* the guard failed: nothing changes *)
    unfold selectionInvariant.
    split; [exact Hmax0 |]. split; [exact Hts0 |]. split; [| split; [| split]].
    + intros c sz Hc Hsz He. apply Hin in Hc as [Hc | ->]; [eauto |].
      assert (sz = size) by congruence. subst sz.
      destruct (Z.le_gt_cases size (maxTreeSize st)); [assumption |].
      exfalso. apply Hno. split; [exact He | lia].
    + destruct Hwit as [H0 | (c & Hc & Hcs & He)]; [left; exact H0 |].
      right. exists c. split; [apply Hin; left; exact Hc | split; assumption].
    + destruct Hsel as [H0 | (Hc & Hpos & Htsl & Hsz)]; [left; exact H0 |].
      right. split; [apply Hin; left; exact Hc |]. split; [exact Hpos |].
      split; [exact Htsl | exact Hsz].
    + intros c sz ts Hc Hsz He Hts Hge. apply Hin in Hc as [Hc | ->]; [eauto |].
      assert (sz = size) by congruence. subst sz.
      exfalso. apply Hno. split; [exact He | exact Hge].
  - (* the guard passed: the running max is this checkpoint's size *)
    assert (Hub' : forall c sz, c ∈ pre ++ [chpt] -> treeSizeOf c = Some sz ->
                                eligible counts i sz -> sz <= maxTreeSize st').
    { intros c sz Hc Hsz He. rewrite Hmax'. apply Hin in Hc as [Hc | ->].
      - specialize (Hub c sz Hc Hsz He). lia.
      - assert (sz = size) by congruence. subst sz. lia. }
    assert (Hwit' : maxTreeSize st' = 0
                    \/ exists c, c ∈ pre ++ [chpt]
                                 /\ treeSizeOf c = Some (maxTreeSize st')
                                 /\ eligible counts i (maxTreeSize st')).
    { right. exists chpt. rewrite Hmax'.
      split; [apply Hin; right; reflexivity | split; assumption]. }
    destruct Hts as [(Hnone & Hl' & Hc') | (ts & Hsome & _ & Hcmp)].
    + (* timestamp skipped *)
      unfold selectionInvariant. rewrite Hl', Hc'.
      split; [lia |]. split; [exact Hts0 |]. split; [exact Hub' |].
      split; [exact Hwit' |]. split.
      * destruct Hsel as [H0 | (Hc & Hpos & Htsl & (sz & Hsz & He & Hle))];
          [left; exact H0 |].
        right. split; [apply Hin; left; exact Hc |]. split; [exact Hpos |].
        split; [exact Htsl |]. exists sz. repeat split; try assumption. lia.
      * intros c sz ts Hc Hsz He Hts Hge. apply Hin in Hc as [Hc | ->].
        -- apply (Hdom c sz ts Hc Hsz He Hts). lia.
        -- congruence.
    + destruct Hcmp as [(Hlt & Hl' & Hc') | (Hle & Hl' & Hc')].
      * (* new candidate *)
        unfold selectionInvariant. rewrite Hl', Hc'.
        split; [lia |]. split; [lia |]. split; [exact Hub' |].
        split; [exact Hwit' |]. split.
        -- right. split; [apply Hin; right; reflexivity |]. split; [lia |].
           split; [exact Hsome |]. exists size. repeat split; try assumption. lia.
        -- intros c sz ts' Hc Hsz He Hts Hge. apply Hin in Hc as [Hc | ->].
           ++ assert (ts' <= largestTimestamp st)
                by (apply (Hdom c sz ts' Hc Hsz He Hts); lia). lia.
           ++ assert (ts' = ts) by congruence. subst ts'. lia.
      * (* candidate kept *)
        unfold selectionInvariant. rewrite Hl', Hc'.
        split; [lia |]. split; [exact Hts0 |]. split; [exact Hub' |].
        split; [exact Hwit' |]. split.
        -- destruct Hsel as [H0 | (Hc & Hpos & Htsl & (sz & Hsz & He & Hle'))];
             [left; exact H0 |].
           right. split; [apply Hin; left; exact Hc |]. split; [exact Hpos |].
           split; [exact Htsl |]. exists sz. repeat split; try assumption. lia.
        -- intros c sz ts' Hc Hsz He Hts Hge. apply Hin in Hc as [Hc | ->].
           ++ apply (Hdom c sz ts' Hc Hsz He Hts). lia.
           ++ assert (ts' = ts) by congruence. subst ts'. exact Hle.
Qed.

Lemma select_invariant counts i checkpoints sel :
  select counts i checkpoints = Normal sel ->
  selectionInvariant counts i (concat checkpoints) sel.
Proof.
  unfold select. rewrite forRange_concat. intros Hrun.
  apply (forRange_invariant_prefix (selectionInvariant counts i)
           (selectBody counts i) (selectionInvariant_step counts i)
           (concat checkpoints) [] initialSelection sel); [| exact Hrun].
  unfold selectionInvariant, initialSelection. cbn.
  split; [lia |]. split; [lia |].
  split; [intros c sz Hc; apply elem_of_nil in Hc; destruct Hc |].
  split; [left; reflexivity |]. split; [left; split; reflexivity |].
  intros c sz ts Hc. apply elem_of_nil in Hc. destruct Hc.
Qed.

(** The histories and the tally of [dirLaggard]. *)
Definition laggardCheckpoints : list (list string) :=
  [ [checkpointLine 100 9000];
    [checkpointLine 100 5000; checkpointLine 101 5001];
    [checkpointLine 100 5000; checkpointLine 101 5001];
    [checkpointLine 100 5000; checkpointLine 101 5001] ].

Definition laggardCounts : gmap string Z := <["100" := 4]> {[ "101" := 3 ]}.

Lemma laggard_select :
  select laggardCounts 3 laggardCheckpoints
  = Normal (mkSelection 101 9000 (checkpointLine 100 9000) []).
Proof. vm_compute. reflexivity. Qed.

(** X4.  When the selection scan returns, its running max is the largest
    eligible tree size among the checkpoints, or 0 when no eligible size
    is positive: it is never negative, no eligible size exceeds it, and
    unless it is 0 some checkpoint reports it and it is eligible. *)
Theorem select_running_max_is_largest_eligible counts i checkpoints sel :
  select counts i checkpoints = Normal sel ->
  0 <= maxTreeSize sel
  /\ (forall chpt size,
        chpt ∈ concat checkpoints -> treeSizeOf chpt = Some size ->
        eligible counts i size -> size <= maxTreeSize sel)
  /\ (maxTreeSize sel = 0
      \/ exists chpt,
           chpt ∈ concat checkpoints
           /\ treeSizeOf chpt = Some (maxTreeSize sel)
           /\ eligible counts i (maxTreeSize sel)).
Proof.
  intros Hsel.
  destruct (select_invariant _ _ _ _ Hsel) as (Hmax0 & _ & Hub & Hwit & _).
  split; [exact Hmax0 |]. split; [exact Hub | exact Hwit].
Qed.

Lemma select_running_max_is_largest_eligible_witness :
  0 <= 101
  /\ (forall chpt size,
        chpt ∈ concat laggardCheckpoints -> treeSizeOf chpt = Some size ->
        eligible laggardCounts 3 size -> size <= 101)
  /\ (101 = 0
      \/ exists chpt,
           chpt ∈ concat laggardCheckpoints
           /\ treeSizeOf chpt = Some 101
           /\ eligible laggardCounts 3 101).
Proof.
  exact (select_running_max_is_largest_eligible _ _ _ _ laggard_select).
Defined.

(** X5.  When the selection scan returns, either nothing was selected (the
    candidate is the empty string and the largest timestamp is 0), or the
    candidate is one of the checkpoints, its tree size is eligible and at
    most the running max, and its timestamp parses, is positive and is the
    largest timestamp recorded.  A checkpoint whose timestamp is 0 or
    negative is never selected. *)
Theorem selected_checkpoint_has_quorum counts i checkpoints sel :
  select counts i checkpoints = Normal sel ->
  (latest_chpt sel = EmptyString /\ largestTimestamp sel = 0)
  \/ (latest_chpt sel ∈ concat checkpoints
      /\ 0 < largestTimestamp sel
      /\ timestampOf (latest_chpt sel) = Some (largestTimestamp sel)
      /\ exists size,
           treeSizeOf (latest_chpt sel) = Some size
           /\ eligible counts i size /\ size <= maxTreeSize sel).
Proof.
  intros Hsel.
  destruct (select_invariant _ _ _ _ Hsel) as (_ & _ & _ & _ & Hcand & _).
  exact Hcand.
Qed.

Lemma selected_checkpoint_has_quorum_witness :
  (checkpointLine 100 9000 = EmptyString /\ 9000 = 0)
  \/ (checkpointLine 100 9000 ∈ concat laggardCheckpoints
      /\ 0 < 9000
      /\ timestampOf (checkpointLine 100 9000) = Some 9000
      /\ exists size,
           treeSizeOf (checkpointLine 100 9000) = Some size
           /\ eligible laggardCounts 3 size /\ size <= 101).
Proof.
  exact (selected_checkpoint_has_quorum _ _ _ _ laggard_select).
Defined.

(** X6.  When the selection scan returns, no eligible checkpoint of the
    largest eligible size has a timestamp above the largest timestamp
    recorded. *)
Theorem largest_size_timestamps_bounded counts i checkpoints sel chpt timestamp :
  select counts i checkpoints = Normal sel ->
  chpt ∈ concat checkpoints ->
  treeSizeOf chpt = Some (maxTreeSize sel) ->
  eligible counts i (maxTreeSize sel) ->
  timestampOf chpt = Some timestamp ->
  timestamp <= largestTimestamp sel.
Proof.
  intros Hsel Hin Hsize Hel Hts.
  destruct (select_invariant _ _ _ _ Hsel) as (_ & _ & _ & _ & _ & Hdom).
  apply (Hdom chpt (maxTreeSize sel) timestamp Hin Hsize Hel Hts). lia.
Qed.

Lemma largest_size_timestamps_bounded_witness : 5001 <= 9000.
Proof.
  apply (largest_size_timestamps_bounded laggardCounts 3 laggardCheckpoints
           (mkSelection 101 9000 (checkpointLine 100 9000) [])
           (checkpointLine 101 5001) 5001 laggard_select).
  - cbn [laggardCheckpoints concat app]. do 2 apply list_elem_of_further.
    apply list_elem_of_here.
  - reflexivity.
  - vm_compute. discriminate.
  - reflexivity.
Defined.

(** ** The accepted log from cycle to cycle *)

(** X7.  A completed cycle that finds the log terminated and readable to
    its end adds exactly one line to it, up to the bound: after the cycle
    the log has min(20, lines before + 1) lines, and is terminated again,
    so the same holds for the next cycle. *)
Theorem accepted_log_grows_by_one_line (fs fs' : filesystem) msgs old :
  cycle fs = Normal (fs', msgs) ->
  lineTerminated (acceptedData fs) = true ->
  scanLines (acceptedData fs) = (old, None) ->
  exists kept,
    scanLines (acceptedData fs') = (kept, None)
    /\ length kept = Nat.min 20 (S (length old))
    /\ lineTerminated (acceptedData fs') = true.
Proof.
  intros Hcycle Hterm Hold.
  destruct (cycle_accepted_data _ _ _ Hcycle)
    as (st & lines & _ & Hnolf & Hscan & Hacc).
  pose proof (scanLines_tokens (acceptedData fs +:+ (latest_chpt st +:+ newline)))
    as Htok.
  rewrite Hscan in Htok. cbn [fst] in Htok.
  pose proof (scanLines_append_line _ _ _ _ Hterm Hnolf Hold Hscan) as Hlines.
  assert (Hlen : length lines = S (length old))
    by (rewrite Hlines, length_app; cbn; lia).
  pose proof (cycle_accepted_terminated _ _ _ Hcycle) as Hterm'.
  rewrite Hacc. destruct (Nat.leb_spec (length lines) 20) as [Hle | Hgt].
  - exists lines. split; [exact Hscan |]. split; [lia |].
    rewrite Hacc in Hterm'.
    destruct (Nat.leb_spec (length lines) 20); [exact Hterm' | lia].
  - exists (map dropCR (drop (length lines - 20) lines)).
    split; [apply scanLines_unlines, Forall_drop, Htok |].
    split; [rewrite length_map, length_drop; lia |].
    apply lineTerminated_unlines.
Qed.

Lemma accepted_log_grows_by_one_line_witness :
  exists fs' kept,
    cycle dir25 = Normal (fs', [])
    /\ scanLines (acceptedData fs') = (kept, None)
    /\ length kept = Nat.min 20 (S (length log25))
    /\ lineTerminated (acceptedData fs') = true.
Proof.
  assert (Hcycle : cycle dir25
                   = Normal (<[AcceptedChptFile :=
                       plainFile (unlines (drop 6 (log25 ++ [checkpointLine 26 1026])))]>
                       dir25, []))
    by (vm_compute; reflexivity).
  destruct (accepted_log_grows_by_one_line _ _ _ log25 Hcycle) as (kept & H);
    [vm_compute; reflexivity | vm_compute; reflexivity |].
  eexists _, kept. split; [exact Hcycle | exact H].
Defined.

Lemma filepath_Glob_no_match (fs : filesystem) :
  (forall name, is_Some (fs !! name) -> matchLogInfo name = false) ->
  filepath_Glob fs = Ok [].
Proof.
  intros Hnone. destruct (filepath_Glob_elem_of fs) as (monitors & -> & Hin).
  destruct monitors as [| m ms]; [reflexivity |].
  destruct (proj1 (Hin m) (list_elem_of_here _ _)) as [Hm Hmatch].
  rewrite (Hnone m Hm) in Hmatch. discriminate Hmatch.
Qed.

(** X8.  With no monitor log in the directory the threshold is not
    consulted and nothing is selected; if the accepted log does not exist
    either, the cycle completes, logs nothing and creates the log with one
    empty line. *)
Theorem cycle_without_monitors (fs : filesystem) :
  (forall name, is_Some (fs !! name) -> matchLogInfo name = false) ->
  evaluate fs = Normal initialSelection
  /\ (fs !! AcceptedChptFile = None ->
      cycle fs = Normal (<[AcceptedChptFile := mkFile newline true true]> fs, [])).
Proof.
  intros Hnone. pose proof (filepath_Glob_no_match fs Hnone) as Hglob.
  split; [unfold evaluate; rewrite Hglob; reflexivity |].
  intros Hlog. unfold cycle. rewrite Hglob. cbn [readAll forRange mbind outcome_bind obind].
  change (tally []) with (Normal (∅ : gmap string Z)).
  cbn [mbind outcome_bind obind].
  unfold os_OpenFile_append. rewrite Hlog.
  change (select ∅ _ []) with (Normal initialSelection).
  cbn [mbind outcome_bind obind latest_chpt initialSelection].
  rewrite deleteOldCheckpoints_unfold.
  rewrite (file_write_lookup _ _ _ (mkFile EmptyString true true))
    by apply lookup_insert_eq.
  cbn [data readable writable].
  change (scanLines (EmptyString +:+ EmptyString +:+ String LF EmptyString))
    with ([EmptyString], @None error).
  cbn [length Nat.leb]. do 2 f_equal.
  apply map_eq. intros other. destruct (decide (other = AcceptedChptFile)) as [-> | Hne].
  - rewrite (file_write_lookup _ _ _ (mkFile EmptyString true true))
      by apply lookup_insert_eq.
    rewrite lookup_insert_eq. reflexivity.
  - rewrite file_write_other by exact Hne.
    rewrite !lookup_insert_ne by congruence. reflexivity.
Qed.

Lemma cycle_without_monitors_witness :
  evaluate {[ "notes.txt" := plainFile "x" ]} = Normal initialSelection
  /\ cycle {[ "notes.txt" := plainFile "x" ]}
     = Normal (<[AcceptedChptFile := mkFile newline true true]>
                 {[ "notes.txt" := plainFile "x" ]}, []).
Proof.
  assert (Hnone : forall name,
             is_Some (({[ "notes.txt" := plainFile "x" ]} : filesystem) !! name) ->
             matchLogInfo name = false).
  { intros name [f Hf]. apply lookup_singleton_Some in Hf as [<- _]. reflexivity. }
  destruct (cycle_without_monitors _ Hnone) as [Heval Hcycle].
  split; [exact Heval | apply Hcycle; reflexivity].
Defined.

(** ** What the evaluator reads *)

Lemma matching_entries_elem_of (fs : filesystem) m :
  m ∈ filter (fun n => matchLogInfo n = true) (map_to_list fs).*1
  <-> is_Some (fs !! m) /\ matchLogInfo m = true.
Proof.
  rewrite list_elem_of_filter, list_elem_of_fmap. split.
  - intros [Hmatch ([m' f] & -> & Hin)]. apply elem_of_map_to_list in Hin.
    split; [exists f; exact Hin | exact Hmatch].
  - intros [[f Hf] Hmatch]. split; [exact Hmatch |].
    exists (m, f). split; [reflexivity | apply elem_of_map_to_list, Hf].
Qed.

Lemma matching_entries_NoDup (fs : filesystem) :
  NoDup (filter (fun n => matchLogInfo n = true) (map_to_list fs).*1).
Proof. apply NoDup_filter, NoDup_fst_map_to_list. Qed.

(** The glob sees only which matching names exist. *)
Lemma filepath_Glob_ext (fs1 fs2 : filesystem) :
  (forall m, matchLogInfo m = true -> is_Some (fs1 !! m) <-> is_Some (fs2 !! m)) ->
  filepath_Glob fs1 = filepath_Glob fs2.
Proof.
  intros Hsame. unfold filepath_Glob. f_equal.
  apply (Sorted_unique String.le); try apply Sorted_merge_sort; try apply _.
  rewrite !merge_sort_Permutation.
  apply NoDup_Permutation; try apply matching_entries_NoDup.
  intros m. rewrite !matching_entries_elem_of. split.
  - intros [Hm Hmatch]. split; [apply (Hsame m Hmatch), Hm | exact Hmatch].
  - intros [Hm Hmatch]. split; [apply (Hsame m Hmatch), Hm | exact Hmatch].
Qed.

Lemma readLatestCheckpoints_ext (fs1 fs2 : filesystem) m :
  fs1 !! m = fs2 !! m ->
  readLatestCheckpoints fs1 m = readLatestCheckpoints fs2 m.
Proof.
  intros Hsame. rewrite !readLatestCheckpoints_unfold. unfold os_Open.
  rewrite Hsame. reflexivity.
Qed.

Lemma forRange_ext_in {S A} (body body' : S -> A -> outcome S) (xs : list A) :
  (forall st x, x ∈ xs -> body st x = body' st x) ->
  forall st, forRange body st xs = forRange body' st xs.
Proof.
  induction xs as [| x xs IH]; intros Hext st; cbn; [reflexivity |].
  rewrite (Hext st x) by apply list_elem_of_here.
  destruct (body' st x); cbn; try reflexivity.
  apply IH. intros st' x' Hin. apply Hext, list_elem_of_further, Hin.
Qed.

Lemma readAll_ext (fs1 fs2 : filesystem) monitors :
  (forall m, m ∈ monitors -> fs1 !! m = fs2 !! m) ->
  readAll fs1 monitors = readAll fs2 monitors.
Proof.
  intros Hsame. unfold readAll. apply forRange_ext_in.
  intros acc m Hin. rewrite (readLatestCheckpoints_ext fs1 fs2 m (Hsame m Hin)).
  reflexivity.
Qed.

Lemma evaluate_ext (fs1 fs2 : filesystem) :
  (forall m, matchLogInfo m = true -> fs1 !! m = fs2 !! m) ->
  evaluate fs1 = evaluate fs2.
Proof.
  intros Hsame. unfold evaluate.
  rewrite (filepath_Glob_ext fs1 fs2)
    by (intros m Hm; rewrite (Hsame m Hm); reflexivity).
  destruct (filepath_Glob_elem_of fs2) as (monitors & -> & Hin).
  rewrite (readAll_ext fs1 fs2); [reflexivity |].
  intros m Hm. apply Hsame, (proj1 (Hin m) Hm).
Qed.

(** X9.  What a cycle selects depends only on the files whose names match
    logInfo*.txt: two directories that agree on those select alike (or end
    the process alike).  In particular, creating, changing or removing any
    other file, the accepted log included, changes nothing. *)
Theorem evaluate_depends_only_on_monitor_logs (fs1 fs2 : filesystem) :
  (forall m, matchLogInfo m = true -> fs1 !! m = fs2 !! m) ->
  evaluate fs1 = evaluate fs2
  /\ (forall name f, matchLogInfo name = false ->
        evaluate (<[name := f]> fs1) = evaluate fs2
        /\ evaluate (delete name fs1) = evaluate fs2).
Proof.
  intros Hsame. split; [apply evaluate_ext, Hsame |].
  intros name f Hname. split; apply evaluate_ext; intros m Hm;
    rewrite <- (Hsame m Hm).
  - apply lookup_insert_ne. congruence.
  - apply lookup_delete_ne. congruence.
Qed.

Lemma evaluate_depends_only_on_monitor_logs_witness :
  evaluate (delete MonitorList dirListed) = evaluate dirListed
  /\ evaluate (<[AcceptedChptFile := plainFile (unlines log25)]> dirListed)
     = evaluate dirListed.
Proof.
  destruct (evaluate_depends_only_on_monitor_logs dirListed dirListed
              (fun m _ => eq_refl)) as [_ Hother].
  split.
  - exact (proj2 (Hother MonitorList (plainFile EmptyString) eq_refl)).
  - exact (proj1 (Hother AcceptedChptFile (plainFile (unlines log25)) eq_refl)).
Defined.

(** X10.  A second cycle over monitor logs that did not change selects
    what the first selected: the accepted log a cycle wrote does not feed
    back into the selection. *)
Theorem cycle_selection_repeats (fs fs' : filesystem) msgs :
  cycle fs = Normal (fs', msgs) -> evaluate fs' = evaluate fs.
Proof.
  intros Hcycle. apply evaluate_ext. intros m Hm.
  apply (cycle_other_files _ _ _ _ Hcycle). intros ->. discriminate Hm.
Qed.

Lemma cycle_selection_repeats_witness :
  exists fs', cycle dirLaggard = Normal (fs', [])
              /\ evaluate fs' = evaluate dirLaggard.
Proof.
  eexists. split; [vm_compute; reflexivity |].
  match goal with
  | |- evaluate ?fs' = _ =>
      apply (cycle_selection_repeats dirLaggard fs' []); vm_compute; reflexivity
  end.
Defined.


(** ** Reading the monitors' histories *)

Definition readOk (fs : filesystem) (monitor : string) : Prop :=
  exists chpts, readLatestCheckpoints fs monitor = Ok chpts.

(** The reading loop from any list of histories already read. *)
Lemma readAll_from (fs : filesystem) monitors acc :
  match forRange
          (fun checkpoints monitor =>
             match readLatestCheckpoints fs monitor with
             | Err e => Fatal (FatalReading monitor e)
             | Ok chpts => Normal (checkpoints ++ [chpts])
             end)
          acc monitors with
  | Normal checkpoints =>
      exists histories,
        checkpoints = acc ++ histories
        /\ Forall2 (fun m h => readLatestCheckpoints fs m = Ok h) monitors histories
  | Fatal f =>
      exists pre m post e,
        monitors = pre ++ m :: post
        /\ Forall (readOk fs) pre
        /\ readLatestCheckpoints fs m = Err e
        /\ f = FatalReading m e
  | Panic _ => False
  end.
Proof.
  revert acc. induction monitors as [| m monitors IH]; intros acc; cbn [forRange].
  - exists []. split; [symmetry; apply app_nil_r | constructor].
  - destruct (readLatestCheckpoints fs m) as [chpts | e] eqn:Hm;
      cbn [mbind outcome_bind obind].
    + specialize (IH (acc ++ [chpts])).
      destruct (forRange _ (acc ++ [chpts]) monitors) as [cps | f | p].
      * destruct IH as (hs & -> & Hall). exists (chpts :: hs).
        split; [rewrite <- app_assoc; reflexivity | constructor; assumption].
      * destruct IH as (pre & m' & post & e & -> & Hpre & Hm' & ->).
        exists (m :: pre), m', post, e. split; [reflexivity |].
        split; [constructor; [exists chpts; exact Hm | exact Hpre] |].
        split; [exact Hm' | reflexivity].
      * exact IH.
    + exists [], m, monitors, e. repeat split; [constructor | exact Hm].
Qed.

Lemma length_concat_histories (histories : list (list string)) :
  Forall (fun h => (length h <= 2)%nat) histories ->
  (length (concat histories) <= 2 * length histories)%nat.
Proof.
  induction 1 as [| h hs Hh _ IH]; cbn [concat length]; [lia |].
  rewrite length_app. lia.
Qed.

(** X12.  Reading the histories never panics.  It stops at the first
    monitor, in the order given, whose log cannot be opened or scanned, with
    the fatal message that names it; otherwise it returns one history per
    monitor, in order, each of at most two checkpoints, so that no tree
    size can collect more than two votes per monitor. *)
Theorem readAll_one_short_history_per_monitor :
  forall (fs : filesystem) monitors,
    match readAll fs monitors with
    | Normal checkpoints =>
        Forall2 (fun m h => readLatestCheckpoints fs m = Ok h) monitors checkpoints
        /\ length checkpoints = length monitors
        /\ Forall (fun h => (length h <= 2)%nat) checkpoints
        /\ (forall size,
              votes size (concat checkpoints) <= 2 * Z.of_nat (length monitors))
    | Fatal f =>
        exists pre m post e,
          monitors = pre ++ m :: post
          /\ Forall (readOk fs) pre
          /\ readLatestCheckpoints fs m = Err e
          /\ f = FatalReading m e
    | Panic _ => False
    end.
Proof.
  intros fs monitors. unfold readAll.
  pose proof (readAll_from fs monitors []) as H.
  destruct (forRange _ [] monitors) as [cps | f | p]; [| exact H | exact H].
  destruct H as (hs & -> & Hall). cbn [app].
  assert (Hshort : Forall (fun h => (length h <= 2)%nat) hs).
  { clear -Hall. induction Hall as [| m h ms hs Hm _ IH]; constructor; [| exact IH].
    rewrite readLatestCheckpoints_unfold in Hm.
    destruct (os_Open fs m) as [contents |]; [| discriminate].
    destruct (scanLines contents) as [lines [e |]]; cbn [fst snd] in Hm;
      [discriminate |].
    injection Hm as <-. rewrite length_lastTwo. lia. }
  pose proof (Forall2_length _ _ _ Hall) as Hlen.
  split; [exact Hall |]. split; [symmetry; exact Hlen |]. split; [exact Hshort |].
  intros size. unfold votes.
  pose proof (length_filter (fun chpt => treeSizeOf chpt = Some size) (concat hs)).
  pose proof (length_concat_histories hs Hshort). lia.
Qed.

(** ** The tally as a count of a multiset *)

Lemma votes_Permutation size (xs ys : list string) :
  xs ≡ₚ ys -> votes size xs = votes size ys.
Proof. intros Hp. unfold votes. rewrite Hp. reflexivity. Qed.

(** The tally that ran through, key by key. *)
Lemma tally_lookup (checkpoints : list (list string)) counts key n :
  tally checkpoints = Normal counts ->
  counts !! key = Some n
  <-> exists size,
        key = strconv_Itoa size
        /\ n = votes size (concat checkpoints)
        /\ 0 < n.
Proof.
  unfold tally. rewrite forRange_concat. intros Hrun.
  destruct (tally_from _ _ _ Hrun) as [Hcount Hkeys].
  assert (Hall : forall size,
             countOf counts (strconv_Itoa size) = votes size (concat checkpoints)).
  { intros size. rewrite Hcount. unfold countOf. rewrite lookup_empty. cbn. lia. }
  split.
  - intros Hn. destruct (Hkeys key) as [Hin | (size & -> & Hpos)];
      [eexists; exact Hn | rewrite lookup_empty in Hin; destruct Hin as [? [=]] |].
    exists size. split; [reflexivity |].
    specialize (Hall size). unfold countOf in Hall. rewrite Hn in Hall. cbn in Hall.
    split; [exact Hall | lia].
  - intros (size & -> & -> & Hpos). specialize (Hall size). unfold countOf in Hall.
    destruct (counts !! strconv_Itoa size) as [n |]; cbn in Hall; [congruence | lia].
Qed.

Lemma tally_Normal_all_counted (checkpoints : list (list string)) counts :
  tally checkpoints = Normal counts ->
  Forall (fun chpt => is_Some (treeSizeOf chpt)) (concat checkpoints).
Proof.
  intros Hrun. apply Forall_forall. intros chpt Hin.
  destruct (treeSizeOf chpt) as [size |] eqn:Hsize; [eexists; reflexivity |].
  pose proof (tally_aborts_anywhere _ _ Hin Hsize) as Hab.
  rewrite Hrun in Hab. destruct Hab.
Qed.

(** X13.  The tally counts a multiset: it does not depend on the order of
    the monitors, of the checkpoints within a history, or on how the
    checkpoint lines are grouped into histories. *)
Theorem tally_order_irrelevant (checkpoints1 checkpoints2 : list (list string)) counts :
  concat checkpoints1 ≡ₚ concat checkpoints2 ->
  tally checkpoints1 = Normal counts ->
  tally checkpoints2 = Normal counts.
Proof.
  intros Hperm Hrun1.
  pose proof (tally_Normal_all_counted _ _ Hrun1) as Hall. rewrite Hperm in Hall.
  destruct (tally_through ∅ _ Hall) as [counts2 Hrun2].
  rewrite <- forRange_concat in Hrun2. fold (tally checkpoints2) in Hrun2.
  rewrite Hrun2. f_equal. apply map_eq. intros key.
  destruct (counts !! key) as [n |] eqn:Hkey.
  - apply (tally_lookup _ _ _ _ Hrun1) in Hkey as (size & -> & -> & Hpos).
    apply (tally_lookup _ _ _ _ Hrun2). exists size.
    split; [reflexivity |]. rewrite (votes_Permutation _ _ _ Hperm) in *.
    split; [reflexivity | exact Hpos].
  - destruct (counts2 !! key) as [n |] eqn:Hkey2; [| reflexivity].
    apply (tally_lookup _ _ _ _ Hrun2) in Hkey2 as (size & -> & -> & Hpos).
    rewrite <- (votes_Permutation _ _ _ Hperm) in Hpos.
    assert (Hsome : counts !! strconv_Itoa size = Some (votes size (concat checkpoints1))).
    { apply (tally_lookup _ _ _ _ Hrun1). exists size. repeat split. exact Hpos. }
    congruence.
Qed.

Lemma tally_order_irrelevant_witness :
  tally [[checkpointLine 101 5001; checkpointLine 100 5000];
         [checkpointLine 100 9000]]
  = Normal {[ "100" := 2; "101" := 1 ]}.
Proof.
  apply (tally_order_irrelevant
           [[checkpointLine 100 9000];
            [checkpointLine 100 5000; checkpointLine 101 5001]]).
  - exact (Permutation_rev
             [checkpointLine 100 9000; checkpointLine 100 5000;
              checkpointLine 101 5001]).
  - vm_compute. reflexivity.
Defined.

(** ** The trace of [main] *)



